(** * Comment threads of the blog backend: store, votes, transports, reconciler

    A shallow embedding of

    - [backend/models/Comment.js] (the schema and its [voteScore] virtual),
    - [backend/controllers/comment.controller.js] (the REST controllers
      [createComment], [updateComment], [deleteComment], [voteComment]),
    - [backend/sockets/commentHandler.js] (the Socket.io handlers of the
      [/comments] namespace),
    - [src/components/blog/CommentSection.tsx] (the listeners that merge the
      server's events into the page's comment list).

    The MongoDB collection of comments is a finite map from [_id] to
    document; a handler is a function from the database before the call to
    the database after it and the outputs the handler produced (one HTTP
    reply for a controller, Socket.io emissions for a socket handler).
    Handlers run one at a time: the model has no interleaving of [await]
    points. *)

From Stdlib Require Import ZArith NArith Ascii String List Lia.
From stdpp Require Import base option list gmap fin_maps fin_sets strings
  sorting.

Local Open Scope string_scope.
Local Open Scope Z_scope.
Local Open Scope list_scope.

(** ** Values *)

(** A Mongo [ObjectId] is twelve bytes; it is kept as the number those bytes
    spell.  [toString()] renders it as 24 hexadecimal digits, injectively, so
    the source's comparisons [a.toString() !== b] and Mongoose's casting
    [includes] are equality on this type.  A request field holding an id is
    an [option ObjectId]: [None] is the absent, [null] or empty (falsy)
    field, so [x || null] and [if (x)] are a match on the option. *)
Definition ObjectId := N.
Bind Scope N_scope with ObjectId.

(** A JavaScript string is its sequence of UTF-16 code units; [length]
    counts them. *)
Definition jsstring := list N.

Definition code_units (s : string) : jsstring :=
  map (fun a => N.of_nat (Ascii.nat_of_ascii a)) (list_ascii_of_string s).

(** The code units [String.prototype.trim] strips (WhiteSpace and
    LineTerminator of ECMAScript). *)
Definition isWhiteSpace (u : N) : bool :=
  bool_decide (u ∈ [9; 10; 11; 12; 13; 32; 160; 5760; 8232; 8233; 8239;
                    8287; 12288; 65279]%N)
  || ((8192 <=? u)%N && (u <=? 8202)%N).

Fixpoint trimStart (s : jsstring) : jsstring :=
  match s with
  | [] => []
  | u :: s' => if isWhiteSpace u then trimStart s' else s
  end.

Definition trim (s : jsstring) : jsstring :=
  reverse (trimStart (reverse (trimStart s))).

(** The decoded access token ([jwtUtils.js]: the payload is [{ id, role }];
    [User.js] restricts [role] to ['user'] and ['admin'], kept as the string
    the handlers compare). *)
Record User := mkUser { id : ObjectId; role : string }.

(** ** The comment document ([CommentSchema]) *)

Record Comment := mkComment {
  _id : ObjectId;
  content : jsstring;
  author : ObjectId;
  blog : ObjectId;
  parentComment : option ObjectId;
  upvotes : list ObjectId;
  downvotes : list ObjectId;
  isEdited : bool;
  createdAt : N;
  updatedAt : N
}.

(** [CommentSchema.virtual('voteScore')]:
    [this.upvotes.length - this.downvotes.length]. *)
Definition voteScore (c : Comment) : Z :=
  Z.of_nat (length (upvotes c)) - Z.of_nat (length (downvotes c)).

Definition set_upvotes (l : list ObjectId) (c : Comment) : Comment :=
  mkComment (_id c) (content c) (author c) (blog c) (parentComment c)
            l (downvotes c) (isEdited c) (createdAt c) (updatedAt c).

Definition set_downvotes (l : list ObjectId) (c : Comment) : Comment :=
  mkComment (_id c) (content c) (author c) (blog c) (parentComment c)
            (upvotes c) l (isEdited c) (createdAt c) (updatedAt c).

Definition set_updatedAt (t : N) (c : Comment) : Comment :=
  mkComment (_id c) (content c) (author c) (blog c) (parentComment c)
            (upvotes c) (downvotes c) (isEdited c) (createdAt c) t.

(** The schema's rules for [content], run by [save()]: the [trim] setter,
    then [required] (an empty string fails it), [minlength 1],
    [maxlength 1000].  [None] is a request without content. *)
Definition castContent (raw : option jsstring) : option jsstring :=
  match raw with
  | None => None
  | Some s =>
      let t := trim s in
      if bool_decide (1 ≤ length t ≤ 1000)%nat then Some t else None
  end.

(** ** The database *)

(** [comments] is the Comment collection keyed by [_id]; of the Blog
    collection the comment code only asks [Blog.findById], so the set of
    blog ids stands for it. *)
Record Db := mkDb {
  comments : gmap ObjectId Comment;
  blogs : gset ObjectId
}.

Definition set_comments (m : gmap ObjectId Comment) (db : Db) : Db :=
  mkDb m (blogs db).

(** [Comment.findById(id)] *)
Definition Comment_findById (i : ObjectId) (db : Db) : option Comment :=
  comments db !! i.

(** [Blog.findById(blogId)]: [null] for a missing id or a missing field. *)
Definition Blog_findById (b : option ObjectId) (db : Db) : option ObjectId :=
  match b with
  | Some i => if bool_decide (i ∈ blogs db) then Some i else None
  | None => None
  end.

(** [Comment.deleteMany({ parentComment: id })] *)
Definition Comment_deleteMany_parent (i : ObjectId) (db : Db) : Db :=
  set_comments
    (filter (fun kc : ObjectId * Comment => parentComment kc.2 ≠ Some i)
            (comments db)) db.

(** [Comment.findByIdAndDelete(id)] *)
Definition Comment_findByIdAndDelete (i : ObjectId) (db : Db) : Db :=
  set_comments (delete i (comments db)) db.

(** The documents [Comment.find({ parentComment: id })] returns (the query
    of [getReplies] and of the [replies] virtual): the direct replies. *)
Definition direct_replies (i : ObjectId) (db : Db) : gmap ObjectId Comment :=
  filter (fun kc : ObjectId * Comment => parentComment kc.2 = Some i)
         (comments db).

(** [comment.save()] of a document read with [findById]: the schema has
    [timestamps: true], so the write stamps [updatedAt] with the clock. *)
Definition save_existing (now : N) (c : Comment) (db : Db) : Db :=
  set_comments (<[_id c := set_updatedAt now c]> (comments db)) db.

(** [new Comment({...}).save()]: the driver draws the [_id]; validation
    rejects bad [content] and a missing [blog]; MongoDB rejects an [_id]
    that is already in the collection.  Arrays default to empty,
    [isEdited] to false, both timestamps to the clock. *)
Definition save_new (now : N) (newId : ObjectId) (raw : option jsstring)
    (userId : ObjectId) (blogId parent : option ObjectId) (db : Db)
  : option (Comment * Db) :=
  match castContent raw, blogId with
  | Some text, Some b =>
      if bool_decide (newId ∈ dom (comments db)) then None
      else
        let c := mkComment newId text userId b parent [] [] false now now in
        Some (c, set_comments (<[newId := c]> (comments db)) db)
  | _, _ => None
  end.

(** ** The vote ledger *)

(** The block shared, character for character, by [voteComment]
    (controller, lines 282-311) and the [vote-comment] handler (lines
    163-192): read both memberships, then toggle. *)
Definition toggleVote (voteType : string) (userId : ObjectId) (c : Comment)
  : Comment :=
  let hasUpvoted := bool_decide (userId ∈ upvotes c) in
  let hasDownvoted := bool_decide (userId ∈ downvotes c) in
  if String.eqb voteType "upvote" then
    if hasUpvoted then
      set_upvotes (filter (fun i => i ≠ userId) (upvotes c)) c
    else
      let c1 := set_upvotes (upvotes c ++ [userId]) c in
      if hasDownvoted then
        set_downvotes (filter (fun i => i ≠ userId) (downvotes c1)) c1
      else c1
  else if String.eqb voteType "downvote" then
    if hasDownvoted then
      set_downvotes (filter (fun i => i ≠ userId) (downvotes c)) c
    else
      let c1 := set_downvotes (downvotes c ++ [userId]) c in
      if hasUpvoted then
        set_upvotes (filter (fun i => i ≠ userId) (upvotes c1)) c1
      else c1
  else c.

(** [['upvote', 'downvote'].includes(voteType)] *)
Definition validVoteType (voteType : string) : bool :=
  bool_decide (voteType ∈ ["upvote"; "downvote"]).

(** The [userVote] field of the controller's reply. *)
Definition userVote (voteType : string) (hasUpvoted hasDownvoted : bool)
  : option string :=
  if hasUpvoted then
    (if String.eqb voteType "upvote" then None else Some "downvote")
  else if hasDownvoted then
    (if String.eqb voteType "downvote" then None else Some "upvote")
  else Some voteType.

(** ** What a handler produces *)

Inductive Payload :=
| NoPayload
| CommentPayload (comment : Comment)
| VotePayload (score : Z) (vote : option string).

(** [res.status(status).json({ success, message, ... })]; the [error] text
    of a 500 reply is the driver's and is left out. *)
Record Response := mkResponse {
  status : N;
  success : bool;
  message : string;
  payload : Payload
}.

(** The events of the [/comments] namespace. *)
Inductive Event :=
| comment_created (comment : Comment) (parentId : option ObjectId)
| comment_updated (comment : Comment)
| comment_deleted (commentId : ObjectId)
| comment_voted (commentId : ObjectId) (score : Z) (nUp nDown : nat)
| comment_error (text : string).

(** Every path through every handler ends in exactly one of:
    [res.status(..).json(..)], [commentNamespace.to(`blog:${b}`).emit(..)],
    or [socket.emit(..)]. *)
Inductive Output :=
| Reply (r : Response)
| ToRoom (blogId : ObjectId) (e : Event)
| ToSocket (e : Event).

Definition reply (st : N) (ok : bool) (msg : string) (p : Payload) : Output :=
  Reply (mkResponse st ok msg p).

(** A connection of the namespace after the authentication middleware:
    [socket.id] and [socket.user]. *)
Record Socket := mkSocket { socket_id : string; user : User }.

(** Rooms: [socket.join(`blog:${blogId}`)] and [socket.leave(..)]. *)
Definition join_blog (blogId : ObjectId) (s : Socket)
    (rooms : gmap ObjectId (gset string)) : gmap ObjectId (gset string) :=
  <[blogId := {[socket_id s]} ∪ default ∅ (rooms !! blogId)]> rooms.

Definition leave_blog (blogId : ObjectId) (s : Socket)
    (rooms : gmap ObjectId (gset string)) : gmap ObjectId (gset string) :=
  <[blogId := default ∅ (rooms !! blogId) ∖ {[socket_id s]}]> rooms.

(** The event, if any, that the connection [sid] receives from an output
    of a handler run for [origin] (no origin socket for an HTTP request). *)
Definition delivered (rooms : gmap ObjectId (gset string))
    (origin : option string) (o : Output) (sid : string) : option Event :=
  match o with
  | Reply _ => None
  | ToRoom b e =>
      if bool_decide (sid ∈ default ∅ (rooms !! b)) then Some e else None
  | ToSocket e =>
      if bool_decide (origin = Some sid) then Some e else None
  end.

(** ** The REST controllers ([comment.controller.js]) *)

(** [router.post('/', authenticate, createComment)] *)
Definition createComment (now : N) (newId : ObjectId)
    (content : option jsstring) (blogId parentCommentId : option ObjectId)
    (reqUser : User) (db : Db) : Db * Output :=
  let userId := id reqUser in
  match Blog_findById blogId db with
  | None => (db, reply 404 false "Blog post not found" NoPayload)
  | Some _ =>
      let parentMissing :=
        match parentCommentId with
        | Some p =>
            match Comment_findById p db with Some _ => false | None => true end
        | None => false
        end in
      if parentMissing then
        (db, reply 404 false "Parent comment not found" NoPayload)
      else
        match save_new now newId content userId blogId parentCommentId db with
        | Some (newComment, db') =>
            (db', reply 201 true "Comment created successfully"
                        (CommentPayload newComment))
        | None => (db, reply 500 false "Failed to create comment" NoPayload)
        end
  end.

(** Lines 189-194 of the controller and 90-95 of the socket handler (the
    same text): assign [content] (the setter trims), [isEdited] and
    [updatedAt]; [save()] then validates.  [None] is the [ValidationError]
    that [save()] throws. *)
Definition editComment (raw : option jsstring) (now : N) (c : Comment)
  : option Comment :=
  match castContent raw with
  | Some text =>
      Some (mkComment (_id c) text (author c) (blog c) (parentComment c)
                      (upvotes c) (downvotes c) true (createdAt c) now)
  | None => None
  end.

(** [router.put('/:id', authenticate, updateComment)] *)
Definition updateComment (now : N) (i : ObjectId) (content : option jsstring)
    (reqUser : User) (db : Db) : Db * Output :=
  let userId := id reqUser in
  match Comment_findById i db with
  | None => (db, reply 404 false "Comment not found" NoPayload)
  | Some comment =>
      if bool_decide (author comment ≠ userId)
         && negb (String.eqb (role reqUser) "admin")
      then (db, reply 403 false
                      "You are not authorized to update this comment" NoPayload)
      else
        match editComment content now comment with
        | Some comment' =>
            (save_existing now comment' db,
             reply 200 true "Comment updated successfully"
                   (CommentPayload (set_updatedAt now comment')))
        | None => (db, reply 500 false "Failed to update comment" NoPayload)
        end
  end.

(** [router.delete('/:id', authenticate, deleteComment)] *)
Definition deleteComment (i : ObjectId) (reqUser : User) (db : Db)
  : Db * Output :=
  let userId := id reqUser in
  match Comment_findById i db with
  | None => (db, reply 404 false "Comment not found" NoPayload)
  | Some comment =>
      if bool_decide (author comment ≠ userId)
         && negb (String.eqb (role reqUser) "admin")
      then (db, reply 403 false
                      "You are not authorized to delete this comment" NoPayload)
      else
        (Comment_findByIdAndDelete i (Comment_deleteMany_parent i db),
         reply 200 true "Comment deleted successfully" NoPayload)
  end.

(** [router.post('/:id/vote', authenticate, voteComment)] *)
Definition voteComment (now : N) (i : ObjectId) (voteType : string)
    (reqUser : User) (db : Db) : Db * Output :=
  let userId := id reqUser in
  if negb (validVoteType voteType) then
    (db, reply 400 false "Invalid vote type" NoPayload)
  else
    match Comment_findById i db with
    | None => (db, reply 404 false "Comment not found" NoPayload)
    | Some comment =>
        let hasUpvoted := bool_decide (userId ∈ upvotes comment) in
        let hasDownvoted := bool_decide (userId ∈ downvotes comment) in
        let comment' := toggleVote voteType userId comment in
        (save_existing now comment' db,
         reply 200 true
               ("Comment "
                ++ (if String.eqb voteType "upvote" then "upvoted"
                    else "downvoted")
                ++ " successfully")%string
               (VotePayload
                  (Z.of_nat (length (upvotes comment'))
                   - Z.of_nat (length (downvotes comment')))
                  (userVote voteType hasUpvoted hasDownvoted)))
    end.

(** ** The socket handlers ([commentHandler.js]) *)

(** [socket.on('new-comment', ...)] *)
Definition on_new_comment (now : N) (newId : ObjectId)
    (content : option jsstring) (blogId parentCommentId : option ObjectId)
    (socket : Socket) (db : Db) : Db * Output :=
  let userId := id (user socket) in
  match blogId,
        save_new now newId content userId blogId parentCommentId db with
  | Some b, Some (newComment, db') =>
      (db', ToRoom b (comment_created newComment parentCommentId))
  | _, _ => (db, ToSocket (comment_error "Failed to create comment"))
  end.

(** [socket.on('update-comment', ...)] *)
Definition on_update_comment (now : N) (commentId : ObjectId)
    (content : option jsstring) (socket : Socket) (db : Db) : Db * Output :=
  let userId := id (user socket) in
  match Comment_findById commentId db with
  | None => (db, ToSocket (comment_error "Comment not found"))
  | Some comment =>
      if bool_decide (author comment ≠ userId)
         && negb (String.eqb (role (user socket)) "admin")
      then (db, ToSocket (comment_error "Not authorized to update this comment"))
      else
        match editComment content now comment with
        | Some comment' =>
            (save_existing now comment' db,
             ToRoom (blog comment')
                    (comment_updated (set_updatedAt now comment')))
        | None => (db, ToSocket (comment_error "Failed to update comment"))
        end
  end.

(** [socket.on('delete-comment', ...)] *)
Definition on_delete_comment (commentId : ObjectId) (socket : Socket)
    (db : Db) : Db * Output :=
  let userId := id (user socket) in
  match Comment_findById commentId db with
  | None => (db, ToSocket (comment_error "Comment not found"))
  | Some comment =>
      if bool_decide (author comment ≠ userId)
         && negb (String.eqb (role (user socket)) "admin")
      then (db, ToSocket (comment_error "Not authorized to delete this comment"))
      else
        let blogId := blog comment in
        (Comment_findByIdAndDelete commentId
           (Comment_deleteMany_parent commentId db),
         ToRoom blogId (comment_deleted commentId))
  end.

(** [socket.on('vote-comment', ...)] *)
Definition on_vote_comment (now : N) (commentId : ObjectId)
    (voteType : string) (socket : Socket) (db : Db) : Db * Output :=
  let userId := id (user socket) in
  if negb (validVoteType voteType) then
    (db, ToSocket (comment_error "Invalid vote type"))
  else
    match Comment_findById commentId db with
    | None => (db, ToSocket (comment_error "Comment not found"))
    | Some comment =>
        let comment' := toggleVote voteType userId comment in
        (save_existing now comment' db,
         ToRoom (blog comment')
                (comment_voted (_id comment')
                   (Z.of_nat (length (upvotes comment'))
                    - Z.of_nat (length (downvotes comment')))
                   (length (upvotes comment'))
                   (length (downvotes comment'))))
    end.

(** ** The two routing tables *)

(** The four mutations a client can ask for, with the fields both
    transports read from the request. *)
Inductive Request :=
| Create (content : option jsstring) (blogId parentCommentId : option ObjectId)
| Update (commentId : ObjectId) (content : option jsstring)
| Delete (commentId : ObjectId)
| Vote (commentId : ObjectId) (voteType : string).

(** [comment.routes.js]: POST [/], PUT [/:id], DELETE [/:id],
    POST [/:id/vote], each behind [authenticate]. *)
Definition rest (now : N) (newId : ObjectId) (reqUser : User) (q : Request)
    (db : Db) : Db * Output :=
  match q with
  | Create content blogId parentCommentId =>
      createComment now newId content blogId parentCommentId reqUser db
  | Update i content => updateComment now i content reqUser db
  | Delete i => deleteComment i reqUser db
  | Vote i voteType => voteComment now i voteType reqUser db
  end.

(** [commentHandler.js]: the [socket.on] registrations for [new-comment],
    [update-comment], [delete-comment], [vote-comment]. *)
Definition live (now : N) (newId : ObjectId) (socket : Socket) (q : Request)
    (db : Db) : Db * Output :=
  match q with
  | Create content blogId parentCommentId =>
      on_new_comment now newId content blogId parentCommentId socket db
  | Update i content => on_update_comment now i content socket db
  | Delete i => on_delete_comment i socket db
  | Vote i voteType => on_vote_comment now i voteType socket db
  end.

(** The blog post a request is about: named by a create request, the
    [blog] of the stored comment for the others. *)
Definition content_item (q : Request) (db : Db) : option ObjectId :=
  match q with
  | Create _ blogId _ => blogId
  | Update i _ | Delete i | Vote i _ => blog <$> comments db !! i
  end.

(** The event of the protocol table that answers a request. *)
Definition answers (q : Request) (e : Event) : Prop :=
  match q, e with
  | Create _ _ parentCommentId, comment_created _ parentId =>
      parentId = parentCommentId
  | Update i _, comment_updated c => _id c = i
  | Delete i, comment_deleted j => j = i
  | Vote i _, comment_voted j _ _ _ => j = i
  | _, _ => False
  end.

(** ** Runs of the server *)

(** One handled request.  The last constructor is the environment: blog
    posts are created and deleted by code outside the comment module. *)
Inductive step : Db → Db → Prop :=
| step_createComment now newId content blogId parentCommentId u db :
    step db (createComment now newId content blogId parentCommentId u db).1
| step_updateComment now i content u db :
    step db (updateComment now i content u db).1
| step_deleteComment i u db :
    step db (deleteComment i u db).1
| step_voteComment now i voteType u db :
    step db (voteComment now i voteType u db).1
| step_new_comment now newId content blogId parentCommentId s db :
    step db (on_new_comment now newId content blogId parentCommentId s db).1
| step_update_comment now i content s db :
    step db (on_update_comment now i content s db).1
| step_delete_comment i s db :
    step db (on_delete_comment i s db).1
| step_vote_comment now i voteType s db :
    step db (on_vote_comment now i voteType s db).1
| step_blogs bs db :
    step db (mkDb (comments db) bs).

(** The databases the server can be in, starting with no comment. *)
Inductive reachable : Db → Prop :=
| reachable_empty bs : reachable (mkDb ∅ bs)
| reachable_step db db' : reachable db → step db db' → reachable db'.

(** ** The vote state machine of the specification *)

Inductive VoteState := st_none | st_upvoted | st_downvoted.

Inductive VoteType := Upvote | Downvote.

Definition voteTypeName (v : VoteType) : string :=
  match v with Upvote => "upvote" | Downvote => "downvote" end.

(** The specification's transition table, row by row. *)
Definition transition (v : VoteType) (s : VoteState) : VoteState :=
  match s, v with
  | st_none, Upvote => st_upvoted
  | st_upvoted, Upvote => st_none
  | st_upvoted, Downvote => st_downvoted
  | st_downvoted, Downvote => st_none
  | st_downvoted, Upvote => st_upvoted
  | st_none, Downvote => st_downvoted
  end.

(** The state of a (comment, user) pair, read off the ledger the way the
    handlers read it ([includes] on both arrays).  A ledger that lists the
    user on both sides is in none of the three states. *)
Definition voteState (c : Comment) (u : ObjectId) : option VoteState :=
  match bool_decide (u ∈ upvotes c), bool_decide (u ∈ downvotes c) with
  | false, false => Some st_none
  | true, false => Some st_upvoted
  | false, true => Some st_downvoted
  | true, true => None
  end.

(** What a user in a given state contributes to [voteScore]. *)
Definition vote_weight (s : VoteState) : Z :=
  match s with st_none => 0 | st_upvoted => 1 | st_downvoted => -1 end.

(** The ledger as the pair of sets the specification speaks of. *)
Definition upvoters (c : Comment) : gset ObjectId := list_to_set (upvotes c).
Definition downvoters (c : Comment) : gset ObjectId := list_to_set (downvotes c).

(** What the ledger of a stored comment satisfies: each side lists a user
    at most once, and no user is on both sides. *)
Definition ledger_ok (c : Comment) : Prop :=
  NoDup (upvotes c) ∧ NoDup (downvotes c)
  ∧ ∀ u, u ∈ upvotes c → u ∈ downvotes c → False.

(** What every stored document satisfies: it sits under its own [_id],
    and its ledger is well-formed. *)
Definition db_ok (db : Db) : Prop :=
  ∀ i c, comments db !! i = Some c → _id c = i ∧ ledger_ok c.

(** The request is let through the author-or-admin check. *)
Definition may_modify (who : User) (c : Comment) : Prop :=
  author c = id who ∨ role who = "admin".

(** The specification's error kinds, and how each transport spells them:
    an HTTP status for a controller, the text of [comment-error] for a
    socket handler. *)
Inductive ErrorKind := ValidationError | NotFound | Forbidden | Failure.

Definition outcome (o : Output) : option ErrorKind :=
  match o with
  | Reply r =>
      if success r then None
      else if (status r =? 400)%N then Some ValidationError
      else if (status r =? 404)%N then Some NotFound
      else if (status r =? 403)%N then Some Forbidden
      else Some Failure
  | ToRoom _ _ => None
  | ToSocket (comment_error text) =>
      if String.eqb text "Invalid vote type" then Some ValidationError
      else if String.eqb text "Comment not found" then Some NotFound
      else if String.prefix "Not authorized" text then Some Forbidden
      else Some Failure
  | ToSocket _ => None
  end.

(** ** The page's comment list ([CommentSection.tsx]) *)

Module CommentSection.

Module Author.
Record t := mk {
  _id : string;
  username : string;
  firstName : option string;
  lastName : option string;
  profilePicture : string
}.
End Author.

(** [interface CommentType]; [replies?] is an optional field. *)
#[warnings="-register-all"]
Inductive CommentType := mkCommentType {
  _id : string;
  content : string;
  author : Author.t;
  blog : string;
  parentComment : option string;
  upvotes : list string;
  downvotes : list string;
  isEdited : bool;
  createdAt : string;
  updatedAt : string;
  voteScore : Z;
  replies : option (list CommentType)
}.

(** [{ ...c, replies: rs }] *)
Definition with_replies (rs : list CommentType) (c : CommentType)
  : CommentType :=
  mkCommentType (_id c) (content c) (author c) (blog c) (parentComment c)
                (upvotes c) (downvotes c) (isEdited c) (createdAt c)
                (updatedAt c) (voteScore c) (Some rs).

(** The [parentId] of a [comment-created] event is the request's
    [parentCommentId] as the client sent it: absent or [null] ([None]) or
    a string.  [!parentId] holds for [None] and for the empty string. *)
Definition truthy (parentId : option string) : bool :=
  match parentId with
  | Some s => negb (String.eqb s "")
  | None => false
  end.

(** [{ ...c, replies: [...(c.replies || []), comment] }] *)
Definition add_reply (comment c : CommentType) : CommentType :=
  with_replies (default [] (replies c) ++ [comment]) c.

(** The state update of the [comment-created] listener (lines 64-82). *)
Definition on_comment_created (comment : CommentType)
    (parentId : option string) (prev : list CommentType)
  : list CommentType :=
  if negb (truthy parentId) then comment :: prev
  else
    map (fun c =>
           if bool_decide (Some (_id c) = parentId) then add_reply comment c
           else c)
        prev.

(** [{ ...c, ...comment }]: every field of [comment] overrides the one of
    [c]; the optional [replies], when [comment] has none, stays as in
    [c]. *)
Definition spread (c comment : CommentType) : CommentType :=
  mkCommentType (_id comment) (content comment) (author comment)
                (blog comment) (parentComment comment) (upvotes comment)
                (downvotes comment) (isEdited comment) (createdAt comment)
                (updatedAt comment) (voteScore comment)
                (match replies comment with
                 | Some rs => Some rs
                 | None => replies c
                 end).

(** [{ ...c, voteScore }] *)
Definition with_voteScore (score : Z) (c : CommentType) : CommentType :=
  mkCommentType (_id c) (content c) (author c) (blog c) (parentComment c)
                (upvotes c) (downvotes c) (isEdited c) (createdAt c)
                (updatedAt c) score (replies c).

(** The state update of the [comment-updated] listener (lines 84-104). *)
Definition on_comment_updated (comment : CommentType)
    (prev : list CommentType) : list CommentType :=
  map (fun c =>
         if bool_decide (_id c = _id comment) then spread c comment
         else
           match replies c with
           | Some rs =>
               with_replies
                 (map (fun r =>
                         if bool_decide (_id r = _id comment)
                         then spread r comment else r) rs) c
           | None => c
           end)
      prev.

(** The state update of the [comment-deleted] listener (lines 106-126). *)
Definition on_comment_deleted (commentId : string)
    (prev : list CommentType) : list CommentType :=
  let isTopLevel :=
    existsb (fun c => bool_decide (_id c = commentId)) prev in
  if isTopLevel then filter (fun c => _id c ≠ commentId) prev
  else
    map (fun c =>
           match replies c with
           | Some rs =>
               if existsb (fun r => bool_decide (_id r = commentId)) rs
               then with_replies (filter (fun r => _id r ≠ commentId) rs) c
               else c
           | None => c
           end)
        prev.

(** The state update of the [comment-voted] listener (lines 128-148). *)
Definition on_comment_voted (commentId : string) (score : Z)
    (prev : list CommentType) : list CommentType :=
  map (fun c =>
         if bool_decide (_id c = commentId) then with_voteScore score c
         else
           match replies c with
           | Some rs =>
               with_replies
                 (map (fun r =>
                         if bool_decide (_id r = commentId)
                         then with_voteScore score r else r) rs) c
           | None => c
           end)
      prev.

(** A shown comment with the scores blanked, its own and those of the
    replies under it. *)
Definition forget_scores (c : CommentType) : CommentType :=
  mkCommentType (_id c) (content c) (author c) (blog c) (parentComment c)
                (upvotes c) (downvotes c) (isEdited c) (createdAt c)
                (updatedAt c) 0
                (map (with_voteScore 0) <$> replies c).

(** The id is on the page: at top level or among the replies shown. *)
Definition shown_at_top (i : string) (prev : list CommentType) : Prop :=
  ∃ c, c ∈ prev ∧ _id c = i.

Definition shown_as_reply (i : string) (prev : list CommentType) : Prop :=
  ∃ c rs r, c ∈ prev ∧ replies c = Some rs ∧ r ∈ rs ∧ _id r = i.

End CommentSection.

(** A page showing two top-level comments, the first with one reply, and
    a comment arriving in a [comment-created] event. *)
Module PageSample.

Import CommentSection.

Definition ann : Author.t :=
  Author.mk "u1" "ann" None None "https://www.gravatar.com/avatar/0".

Definition shown (i text : string) (parent : option string)
    (rs : option (list CommentType)) : CommentType :=
  mkCommentType i text ann "b1" parent [] [] false
                "2024-01-01T00:00:00.000Z" "2024-01-01T00:00:00.000Z" 0 rs.

Definition first_reply : CommentType := shown "c2" "Hi" (Some "c1") None.
Definition first : CommentType := shown "c1" "Hello" None (Some [first_reply]).
Definition second : CommentType := shown "c3" "Second" None None.
Definition page : list CommentType := [first; second].

Definition incoming : CommentType := shown "c9" "New" None None.

End PageSample.

(** ** A small run, used to exercise the statements below *)

Module Sample.

Definition alice : User := mkUser 1 "user".
Definition bob : User := mkUser 2 "user".
Definition bob_socket : Socket := mkSocket "s-bob" bob.

Definition article : ObjectId := 100%N.

(** One article, no comment. *)
Definition db0 : Db := mkDb ∅ {[article]}.

(** Alice posts "Hello" (comment 501) over REST. *)
Definition db1 : Db :=
  (createComment 1000 501 (Some (code_units "Hello")) (Some article) None
                 alice db0).1.

(** Bob replies "Hi" (comment 502) to 501 over REST. *)
Definition db2 : Db :=
  (createComment 1001 502 (Some (code_units "Hi")) (Some article) (Some 501%N)
                 bob db1).1.

(** Alice answers Bob's reply (comment 503, parent 502) over REST. *)
Definition db3 : Db :=
  (createComment 1002 503 (Some (code_units "nested")) (Some article)
                 (Some 502%N) alice db2).1.

(** Alice upvotes 501 over REST. *)
Definition db_upvoted : Db := (voteComment 1002 501 "upvote" alice db1).1.

(** Alice downvotes 501 over REST. *)
Definition db_downvoted : Db := (voteComment 1002 501 "downvote" alice db1).1.

(** Comment 501 as stored in [db1] and in [db_upvoted]. *)
Definition hello : Comment :=
  mkComment 501 (code_units "Hello") 1 article None [] [] false 1000 1000.

Definition hello_upvoted : Comment :=
  mkComment 501 (code_units "Hello") 1 article None [1%N] [] false 1000 1002.

(** Comment 502 as stored in [db2] and [db3]. *)
Definition hi : Comment :=
  mkComment 502 (code_units "Hi") 2 article (Some 501%N) [] [] false 1001 1001.

End Sample.

(** ** Either transport *)

Inductive Transport := ViaRest | ViaSocket.

(** One request of user [who], sent over REST or over the connection
    [sid] of that user. *)
Definition handle (t : Transport) (now : N) (newId : ObjectId) (who : User)
    (sid : string) (q : Request) (db : Db) : Db * Output :=
  match t with
  | ViaRest => rest now newId who q db
  | ViaSocket => live now newId (mkSocket sid who) q db
  end.

(** The values of [userVote] in the controller's reply: [null],
    ['upvote'], ['downvote']. *)
Definition state_name (s : VoteState) : option string :=
  match s with
  | st_none => None
  | st_upvoted => Some "upvote"
  | st_downvoted => Some "downvote"
  end.

(** What the schema lets into [content]: a trimmed string of 1 to 1000
    code units. *)
Definition content_ok (c : Comment) : Prop :=
  (1 ≤ length (content c) ≤ 1000)%nat
  ∧ (∀ u, head (content c) = Some u → isWhiteSpace u = false)
  ∧ (∀ u, last (content c) = Some u → isWhiteSpace u = false).


(** ** Authentication ([middleware/auth.js], the namespace middleware) *)

(** [s.split(' ')]: the pieces between single spaces; an empty string has
    one empty piece. *)
Fixpoint split_space (s : string) : list string :=
  match s with
  | EmptyString => [""]
  | String a s' =>
      if Ascii.eqb a " "%char then "" :: split_space s'
      else
        match split_space s' with
        | w :: ws => String a w :: ws
        | [] => [String a ""]
        end
  end.

(** [authenticate].  [verifyAccessToken] is jsonwebtoken's [verify] under
    the server's secret and is taken as given: [None] when it throws.
    [inl] is the 401 reply; [inr] is the [req.user] with which [next()] is
    called.  [authorization] is [req.headers.authorization]. *)
Definition authenticate (verifyAccessToken : string → option User)
    (authorization : option string) : Response + User :=
  let denied :=
    mkResponse 401 false "Access denied. No token provided." NoPayload in
  match authorization with
  | None => inl denied
  | Some authHeader =>
      if String.eqb authHeader "" || negb (String.prefix "Bearer " authHeader)
      then inl denied
      else
        match split_space authHeader with
        | _ :: token :: _ =>
            if String.eqb token "" then inl denied
            else
              match verifyAccessToken token with
              | Some decoded => inr decoded
              | None =>
                  inl (mkResponse 401 false
                         "Invalid token. Authentication failed." NoPayload)
              end
        | _ => inl denied
        end
  end.

(** The middleware of the [/comments] namespace: [socket.handshake.auth.token]
    must be there and verify; [None] is [next(new Error('Authentication
    error'))], [Some u] is the [socket.user] of the connection. *)
Definition socket_authenticate (verifyAccessToken : string → option User)
    (token : option string) : option User :=
  match token with
  | None => None
  | Some tk => if String.eqb tk "" then None else verifyAccessToken tk
  end.

(** The request interceptor of the page's HTTP client ([utils/api.ts]):
    with a stored access token the header is [`Bearer ${token}`]. *)
Definition authorization_header (token : option string) : option string :=
  match token with
  | None => None
  | Some tk => if String.eqb tk "" then None else Some ("Bearer " ++ tk)%string
  end.

(** A string without a space. *)
Definition spaceless (s : string) : Prop :=
  ∀ a, In a (list_ascii_of_string s) → a ≠ " "%char.


(** ** The read controllers ([getComments], [getReplies]) *)

(** The body of a 200 reply of a listing: [count], [totalCount],
    [totalPages], [currentPage] and the documents of the page. *)
Record Listing (A : Type) := mkListing {
  count : nat;
  totalCount : nat;
  totalPages : nat;
  currentPage : positive;
  items : list A
}.
Arguments mkListing {A}.
Arguments count {A}.
Arguments totalCount {A}.
Arguments totalPages {A}.
Arguments currentPage {A}.
Arguments items {A}.

(** [.skip((page - 1) * limit).limit(limit)] on a sorted result.  [page]
    and [limit] are [parseInt] of the query parameters (1 and 20 or 10
    when absent) and are taken to be positive integers. *)
Definition paginate {A} (page limit : positive) (l : list A) : list A :=
  take (Pos.to_nat limit)
       (drop ((Pos.to_nat page - 1) * Pos.to_nat limit) l).

(** [Math.ceil(totalCount / limit)] *)
Definition pages_needed (total : nat) (limit : positive) : nat :=
  (total + (Pos.to_nat limit - 1)) `div` Pos.to_nat limit.

(** [Comment.find({ blog: blogId, parentComment: null })] *)
Definition top_level_of (blogId : ObjectId) (db : Db) : gmap ObjectId Comment :=
  filter (fun kc : ObjectId * Comment =>
            blog kc.2 = blogId ∧ parentComment kc.2 = None)
         (comments db).

(** [getReplies] (GET [/:commentId/replies], no authentication).
    [oldest_first] is the order in which the database hands out a result
    for [.sort({ createdAt: 1 })]. *)
Definition getReplies (oldest_first : list Comment → list Comment)
    (commentId : ObjectId) (page limit : positive) (db : Db)
  : Response + Listing Comment :=
  match Comment_findById commentId db with
  | None => inl (mkResponse 404 false "Comment not found" NoPayload)
  | Some _ =>
      let found := (map_to_list (direct_replies commentId db)).*2 in
      let replies := paginate page limit (oldest_first found) in
      let total := length found in
      inr (mkListing (length replies) total (pages_needed total limit) page
                     replies)
  end.

(** [getComments] (GET [/blog/:blogId], no authentication): the top-level
    comments of the blog post, each with its [replies] virtual populated.
    [newest_first] is the database's order for [.sort({ createdAt: -1 })]. *)
Definition getComments (newest_first oldest_first : list Comment → list Comment)
    (blogId : ObjectId) (page limit : positive) (db : Db)
  : Response + Listing (Comment * list Comment) :=
  match Blog_findById (Some blogId) db with
  | None => inl (mkResponse 404 false "Blog post not found" NoPayload)
  | Some _ =>
      let found := (map_to_list (top_level_of blogId db)).*2 in
      let shown := paginate page limit (newest_first found) in
      let populated :=
        map (fun c =>
               (c, oldest_first (map_to_list (direct_replies (_id c) db)).*2))
            shown in
      let total := length found in
      inr (mkListing (length populated) total (pages_needed total limit) page
                     populated)
  end.

(** The database's sort may order ties as it likes, but it returns the
    documents it was given. *)
Definition rearranges (sort : list Comment → list Comment) : Prop :=
  ∀ l, sort l ≡ₚ l.

(** Sorting by [createdAt], oldest first, as one order a database could
    produce. *)
Definition not_later (a b : Comment) : Prop :=
  (createdAt a ≤ createdAt b)%N.

#[export] Instance not_later_dec : RelDecision not_later.
Proof. intros a b. unfold not_later. apply _. Defined.

Definition by_createdAt (l : list Comment) : list Comment :=
  merge_sort not_later l.


(** * Properties *)

(** ** The ledger toggle *)

Section Ledger.

Implicit Types (c : Comment) (u w : ObjectId) (l : list ObjectId).

Lemma not_elem_of_drop u l : u ∉ filter (fun i => i ≠ u) l.
Proof. rewrite list_elem_of_filter. tauto. Qed.

Lemma elem_of_drop_ne u w l :
  w ≠ u → w ∈ filter (fun i => i ≠ u) l ↔ w ∈ l.
Proof. rewrite list_elem_of_filter. tauto. Qed.

Lemma drop_absent u l : u ∉ l → filter (fun i => i ≠ u) l = l.
Proof.
  induction l as [|x l IH]; intros Hu; [done|].
  apply not_elem_of_cons in Hu as [Hne Hl].
  rewrite filter_cons_True by congruence. f_equal. auto.
Qed.

Lemma drop_pushed u l : u ∉ l → filter (fun i => i ≠ u) (l ++ [u]) = l.
Proof.
  intros Hu. rewrite filter_app, (drop_absent u l Hu).
  rewrite filter_cons_False by tauto. apply app_nil_r.
Qed.

Lemma NoDup_push u l : NoDup l → u ∉ l → NoDup (l ++ [u]).
Proof.
  intros Hl Hu. apply NoDup_app. split; [done|]. split.
  - intros x Hx ->%list_elem_of_singleton. contradiction.
  - apply NoDup_singleton.
Qed.

Lemma length_drop_present u l :
  NoDup l → u ∈ l → S (length (filter (fun i => i ≠ u) l)) = length l.
Proof.
  induction l as [|x l IH]; intros Hnd Hu; [by apply elem_of_nil in Hu|].
  apply NoDup_cons in Hnd as [Hx Hnd].
  destruct (decide (x = u)) as [->|Hne].
  - rewrite filter_cons_False by tauto. by rewrite (drop_absent u l Hx).
  - rewrite filter_cons_True by done. cbn.
    apply elem_of_cons in Hu as [->|Hu]; [done|]. by rewrite IH.
Qed.

(** The toggle leaves every field but the two arrays alone. *)
Lemma toggleVote_frame voteType u c :
  let c' := toggleVote voteType u c in
  _id c' = _id c ∧ content c' = content c ∧ author c' = author c
  ∧ blog c' = blog c ∧ parentComment c' = parentComment c
  ∧ isEdited c' = isEdited c ∧ createdAt c' = createdAt c
  ∧ updatedAt c' = updatedAt c.
Proof.
  unfold toggleVote.
  repeat (case_match; cbn); repeat split; reflexivity.
Qed.

(** The toggle of a named vote type, by the four cases of the source. *)
Lemma toggleVote_upvote u c :
  toggleVote "upvote" u c =
    if bool_decide (u ∈ upvotes c) then
      set_upvotes (filter (fun i => i ≠ u) (upvotes c)) c
    else if bool_decide (u ∈ downvotes c) then
      set_downvotes (filter (fun i => i ≠ u) (downvotes c))
                    (set_upvotes (upvotes c ++ [u]) c)
    else set_upvotes (upvotes c ++ [u]) c.
Proof. reflexivity. Qed.

Lemma toggleVote_downvote u c :
  toggleVote "downvote" u c =
    if bool_decide (u ∈ downvotes c) then
      set_downvotes (filter (fun i => i ≠ u) (downvotes c)) c
    else if bool_decide (u ∈ upvotes c) then
      set_upvotes (filter (fun i => i ≠ u) (upvotes c))
                  (set_downvotes (downvotes c ++ [u]) c)
    else set_downvotes (downvotes c ++ [u]) c.
Proof. reflexivity. Qed.

(** One toggle is one transition of the voter's own state. *)
Lemma toggleVote_transition v u c s :
  voteState c u = Some s →
  voteState (toggleVote (voteTypeName v) u c) u = Some (transition v s).
Proof.
  unfold voteState. intros Hs.
  destruct v; cbn [voteTypeName];
    [rewrite toggleVote_upvote | rewrite toggleVote_downvote];
    destruct (bool_decide (u ∈ upvotes c)) eqn:Hup;
    destruct (bool_decide (u ∈ downvotes c)) eqn:Hdn;
    simplify_eq; cbn [upvotes downvotes set_upvotes set_downvotes];
    rewrite ?Hup, ?Hdn;
    repeat match goal with
    | |- context [bool_decide (u ∈ filter _ ?l)] =>
        rewrite (bool_decide_eq_false_2 (u ∈ filter _ l))
          by apply not_elem_of_drop
    | |- context [bool_decide (u ∈ ?l ++ [u])] =>
        rewrite (bool_decide_eq_true_2 (u ∈ l ++ [u]))
          by (apply elem_of_app; right; apply list_elem_of_singleton; done)
    end; reflexivity.
Qed.

(** Nobody else's membership moves. *)
Lemma toggleVote_others voteType u w c :
  w ≠ u →
  (w ∈ upvotes (toggleVote voteType u c) ↔ w ∈ upvotes c)
  ∧ (w ∈ downvotes (toggleVote voteType u c) ↔ w ∈ downvotes c).
Proof.
  intros Hne. unfold toggleVote.
  repeat (case_match; cbn [upvotes downvotes set_upvotes set_downvotes]);
    rewrite ?elem_of_drop_ne, ?elem_of_app, ?list_elem_of_singleton by done;
    intuition congruence.
Qed.

(** The toggle keeps a well-formed ledger well-formed. *)
Lemma toggleVote_ledger_ok voteType u c :
  ledger_ok c → ledger_ok (toggleVote voteType u c).
Proof.
  intros (Hup & Hdn & Hdisj). unfold toggleVote, ledger_ok.
  repeat (case_match; cbn [upvotes downvotes set_upvotes set_downvotes]);
    repeat match goal with
    | H : bool_decide _ = true |- _ => apply bool_decide_eq_true_1 in H
    | H : bool_decide _ = false |- _ => apply bool_decide_eq_false_1 in H
    end;
    (split; [|split]);
    try (apply NoDup_filter; assumption);
    try (apply NoDup_push; assumption);
    try assumption;
    intros w; rewrite ?list_elem_of_filter, ?elem_of_app,
                ?list_elem_of_singleton;
    intros; destruct_and?; destruct_or?; subst; try tauto; eauto.
Qed.

Lemma ledger_ok_state c u : ledger_ok c → is_Some (voteState c u).
Proof.
  intros (_ & _ & Hdisj). unfold voteState.
  destruct (bool_decide (u ∈ upvotes c)) eqn:Hup;
    destruct (bool_decide (u ∈ downvotes c)) eqn:Hdn; eauto.
  apply bool_decide_eq_true_1 in Hup, Hdn. destruct (Hdisj u Hup Hdn).
Qed.

(** The score moves with the voter's state: by one when a vote is placed
    or withdrawn, by two when it is switched. *)
Lemma toggleVote_score v u c st :
  ledger_ok c → voteState c u = Some st →
  voteScore (toggleVote (voteTypeName v) u c)
  = voteScore c + vote_weight (transition v st) - vote_weight st.
Proof.
  intros (Hup & Hdn & _). unfold voteState, voteScore.
  destruct v; cbn [voteTypeName];
    [rewrite toggleVote_upvote | rewrite toggleVote_downvote];
    destruct (bool_decide (u ∈ upvotes c)) eqn:Eup;
    destruct (bool_decide (u ∈ downvotes c)) eqn:Edn;
    intros Hst; simplify_eq;
    cbn [upvotes downvotes set_upvotes set_downvotes transition vote_weight];
    repeat match goal with
    | H : bool_decide _ = true |- _ => apply bool_decide_eq_true_1 in H
    | H : bool_decide _ = false |- _ => apply bool_decide_eq_false_1 in H
    end;
    rewrite ?length_app; cbn [length];
    try (pose proof (length_drop_present u (upvotes c) Hup Eup));
    try (pose proof (length_drop_present u (downvotes c) Hdn Edn));
    lia.
Qed.

End Ledger.

(** ** The two transports write the same documents *)

Section Transports.

Implicit Types (db : Db) (c : Comment) (i j : ObjectId) (s : Socket).

Lemma on_update_comment_db now i content s db :
  (on_update_comment now i content s db).1
  = (updateComment now i content (user s) db).1.
Proof.
  unfold on_update_comment, updateComment.
  repeat case_match; reflexivity.
Qed.

Lemma on_delete_comment_db i s db :
  (on_delete_comment i s db).1 = (deleteComment i (user s) db).1.
Proof.
  unfold on_delete_comment, deleteComment.
  repeat case_match; reflexivity.
Qed.

Lemma on_vote_comment_db now i voteType s db :
  (on_vote_comment now i voteType s db).1
  = (voteComment now i voteType (user s) db).1.
Proof.
  unfold on_vote_comment, voteComment.
  repeat case_match; reflexivity.
Qed.

(** For update, delete and vote the two transports also agree on the
    outcome: accepted on both, or refused on both with the same kind. *)
Lemma on_update_comment_outcome now i content s db :
  outcome (on_update_comment now i content s db).2
  = outcome (updateComment now i content (user s) db).2.
Proof.
  unfold on_update_comment, updateComment.
  repeat case_match; reflexivity.
Qed.

Lemma on_delete_comment_outcome i s db :
  outcome (on_delete_comment i s db).2
  = outcome (deleteComment i (user s) db).2.
Proof.
  unfold on_delete_comment, deleteComment.
  repeat case_match; reflexivity.
Qed.

Lemma on_vote_comment_outcome now i voteType s db :
  outcome (on_vote_comment now i voteType s db).2
  = outcome (voteComment now i voteType (user s) db).2.
Proof.
  unfold on_vote_comment, voteComment.
  repeat case_match; reflexivity.
Qed.

End Transports.

(** ** What the writes do to the collection *)

Section Store.

Implicit Types (db : Db) (c : Comment) (i j : ObjectId).

Lemma lookup_save_existing now c db j :
  comments (save_existing now c db) !! j
  = if decide (_id c = j) then Some (set_updatedAt now c)
    else comments db !! j.
Proof. cbn. apply lookup_insert. Qed.

Lemma save_new_Some now newId raw userId blogId parent db c db' :
  save_new now newId raw userId blogId parent db = Some (c, db') →
  ∃ text b,
    castContent raw = Some text ∧ blogId = Some b
    ∧ comments db !! newId = None
    ∧ c = mkComment newId text userId b parent [] [] false now now
    ∧ db' = set_comments (<[newId := c]> (comments db)) db.
Proof.
  unfold save_new. intros H.
  destruct (castContent raw) as [text|]; [|done].
  destruct blogId as [b|]; [|done].
  case_bool_decide as Hdom; [done|].
  apply not_elem_of_dom in Hdom. simplify_eq. eauto 10.
Qed.

Lemma editComment_Some raw now c c' :
  editComment raw now c = Some c' →
  ∃ text,
    castContent raw = Some text
    ∧ c' = mkComment (_id c) text (author c) (blog c) (parentComment c)
                     (upvotes c) (downvotes c) true (createdAt c) now.
Proof.
  unfold editComment. destruct (castContent raw); intros; simplify_eq; eauto.
Qed.

Lemma lookup_delete_cascade i db j c :
  comments (Comment_findByIdAndDelete i (Comment_deleteMany_parent i db)) !! j
    = Some c
  ↔ comments db !! j = Some c ∧ j ≠ i ∧ parentComment c ≠ Some i.
Proof.
  cbn. rewrite lookup_delete_Some, map_lookup_filter_Some. cbn. intuition congruence.
Qed.

(** *** The invariant of the collection *)

Lemma db_ok_save_new now newId raw userId blogId parent db c db' :
  db_ok db →
  save_new now newId raw userId blogId parent db = Some (c, db') →
  db_ok db'.
Proof.
  intros Hok Hsave j c'.
  apply save_new_Some in Hsave as (text & b & _ & _ & _ & Hc & Hdb).
  rewrite Hdb, Hc. cbn.
  rewrite lookup_insert. case_decide as Hj.
  - intros [= <-]. split; [done|].
    repeat split; cbn; try apply NoDup_nil_2. intros u Hu. by apply elem_of_nil in Hu.
  - apply Hok.
Qed.

Lemma db_ok_save_existing now c c' db i :
  db_ok db → comments db !! i = Some c →
  _id c' = _id c → ledger_ok c' →
  db_ok (save_existing now c' db).
Proof.
  intros Hok Hi Hid Hl j d. rewrite lookup_save_existing.
  case_decide as Hj.
  - intros [= <-]. cbn. split; [done|]. exact Hl.
  - apply Hok.
Qed.

Lemma db_ok_delete i db :
  db_ok db →
  db_ok (Comment_findByIdAndDelete i (Comment_deleteMany_parent i db)).
Proof.
  intros Hok j c (Hj & _)%lookup_delete_cascade. by apply Hok.
Qed.

Lemma db_ok_createComment now newId content blogId parent u db :
  db_ok db → db_ok (createComment now newId content blogId parent u db).1.
Proof.
  intros Hok. unfold createComment.
  repeat case_match; cbn; try done; subst.
  all: eapply db_ok_save_new; eauto.
Qed.

Lemma db_ok_on_new_comment now newId content blogId parent s db :
  db_ok db → db_ok (on_new_comment now newId content blogId parent s db).1.
Proof.
  intros Hok. unfold on_new_comment.
  repeat case_match; cbn; try done; subst.
  all: eapply db_ok_save_new; eauto.
Qed.

Lemma db_ok_updateComment now i content u db :
  db_ok db → db_ok (updateComment now i content u db).1.
Proof.
  intros Hok. unfold updateComment, Comment_findById.
  destruct (comments db !! i) as [c|] eqn:Hi; [|done].
  case_match; [done|].
  destruct (editComment content now c) as [c'|] eqn:He; [|done].
  apply editComment_Some in He as (text & _ & ->). cbn [fst].
  eapply db_ok_save_existing; eauto. exact (proj2 (Hok _ _ Hi)).
Qed.

Lemma db_ok_deleteComment i u db :
  db_ok db → db_ok (deleteComment i u db).1.
Proof.
  intros Hok. unfold deleteComment.
  repeat case_match; cbn [fst]; try done. by apply db_ok_delete.
Qed.

Lemma db_ok_voteComment now i voteType u db :
  db_ok db → db_ok (voteComment now i voteType u db).1.
Proof.
  intros Hok. unfold voteComment, Comment_findById.
  case_match; [done|].
  destruct (comments db !! i) as [c|] eqn:Hi; [|done]. cbn [fst].
  eapply db_ok_save_existing; eauto.
  - apply toggleVote_frame.
  - apply toggleVote_ledger_ok. exact (proj2 (Hok _ _ Hi)).
Qed.

Lemma db_ok_step db db' : db_ok db → step db db' → db_ok db'.
Proof.
  intros Hok Hstep. destruct Hstep.
  - by apply db_ok_createComment.
  - by apply db_ok_updateComment.
  - by apply db_ok_deleteComment.
  - by apply db_ok_voteComment.
  - by apply db_ok_on_new_comment.
  - rewrite on_update_comment_db. by apply db_ok_updateComment.
  - rewrite on_delete_comment_db. by apply db_ok_deleteComment.
  - rewrite on_vote_comment_db. by apply db_ok_voteComment.
  - exact Hok.
Qed.

Lemma reachable_db_ok db : reachable db → db_ok db.
Proof.
  induction 1 as [bs|db db' _ IH Hstep].
  - intros i c. cbn. by rewrite lookup_empty.
  - by eapply db_ok_step.
Qed.

End Store.

(** ** The sample run is a run *)

Section SampleRun.

Import Sample.

Lemma reachable_db0 : reachable db0.
Proof. apply reachable_empty. Qed.

Lemma reachable_db1 : reachable db1.
Proof.
  eapply reachable_step; [apply reachable_db0|]. apply step_createComment.
Qed.

Lemma reachable_db2 : reachable db2.
Proof.
  eapply reachable_step; [apply reachable_db1|]. apply step_createComment.
Qed.

Lemma reachable_db3 : reachable db3.
Proof.
  eapply reachable_step; [apply reachable_db2|]. apply step_createComment.
Qed.

Lemma reachable_db_upvoted : reachable db_upvoted.
Proof.
  eapply reachable_step; [apply reachable_db1|]. apply step_voteComment.
Qed.

Lemma reachable_db_downvoted : reachable db_downvoted.
Proof.
  eapply reachable_step; [apply reachable_db1|]. apply step_voteComment.
Qed.

End SampleRun.

(** ** Votes on stored comments *)

Section Votes.

Import Sample.

Implicit Types (db : Db) (c : Comment) (i : ObjectId) (v : VoteType).

Lemma validVoteType_name v : validVoteType (voteTypeName v) = true.
Proof. by destruct v. Qed.

(** What an accepted vote writes, on a collection that keeps documents
    under their own [_id]. *)
Lemma voteComment_accepted now i v reqUser db c :
  comments db !! i = Some c → _id c = i →
  let r := voteComment now i (voteTypeName v) reqUser db in
  comments r.1 !! i
    = Some (set_updatedAt now (toggleVote (voteTypeName v) (id reqUser) c))
  ∧ (∀ j, j ≠ i → comments r.1 !! j = comments db !! j)
  ∧ outcome r.2 = None.
Proof.
  intros Hi Hid. unfold voteComment, Comment_findById.
  rewrite validVoteType_name, Hi. cbn [negb fst snd].
  assert (_id (toggleVote (voteTypeName v) (id reqUser) c) = i) as Hid'.
  { rewrite <- Hid. apply toggleVote_frame. }
  split; [|split].
  - rewrite lookup_save_existing, Hid'. by rewrite decide_True.
  - intros j Hj. rewrite lookup_save_existing, Hid'. by rewrite decide_False.
  - reflexivity.
Qed.

Lemma voteState_set_updatedAt now c u :
  voteState (set_updatedAt now c) u = voteState c u.
Proof. reflexivity. Qed.

Lemma voteScore_set_updatedAt now c :
  voteScore (set_updatedAt now c) = voteScore c.
Proof. reflexivity. Qed.

(** A vote moves nobody else's state on the comment. *)
Lemma toggleVote_other_state voteType u w c :
  w ≠ u → voteState (toggleVote voteType u c) w = voteState c w.
Proof.
  intros Hne. unfold voteState.
  destruct (toggleVote_others voteType u w c Hne) as [Hup Hdn].
  by rewrite (bool_decide_ext _ _ Hup), (bool_decide_ext _ _ Hdn).
Qed.

(** C1.  On every database the server can reach, for every stored comment,
    every user and either vote type, one call of the vote operation is
    accepted and performs exactly the transition of the specification's
    table on the (comment, user) state: upvote takes none to upvoted,
    upvoted to none and downvoted to upvoted; downvote takes none to
    downvoted, downvoted to none and upvoted to downvoted.  No other
    user's state on the comment moves.  This holds for the REST controller
    and for the socket handler. *)
Theorem vote_is_one_transition db i c v now :
  reachable db → comments db !! i = Some c →
  (∀ reqUser : User, ∃ st c',
      voteState c (id reqUser) = Some st
      ∧ outcome (voteComment now i (voteTypeName v) reqUser db).2 = None
      ∧ comments (voteComment now i (voteTypeName v) reqUser db).1 !! i
        = Some c'
      ∧ voteState c' (id reqUser) = Some (transition v st)
      ∧ ∀ w, w ≠ id reqUser → voteState c' w = voteState c w)
  ∧ (∀ socket : Socket, ∃ st c',
      voteState c (id (user socket)) = Some st
      ∧ outcome (on_vote_comment now i (voteTypeName v) socket db).2 = None
      ∧ comments (on_vote_comment now i (voteTypeName v) socket db).1 !! i
        = Some c'
      ∧ voteState c' (id (user socket)) = Some (transition v st)
      ∧ ∀ w, w ≠ id (user socket) → voteState c' w = voteState c w).
Proof.
  intros Hreach Hi.
  destruct (reachable_db_ok db Hreach i c Hi) as [Hid Hledger].
  assert (∀ reqUser : User, ∃ st c',
      voteState c (id reqUser) = Some st
      ∧ outcome (voteComment now i (voteTypeName v) reqUser db).2 = None
      ∧ comments (voteComment now i (voteTypeName v) reqUser db).1 !! i
        = Some c'
      ∧ voteState c' (id reqUser) = Some (transition v st)
      ∧ ∀ w, w ≠ id reqUser → voteState c' w = voteState c w) as Hrest.
  { intros reqUser.
    destruct (ledger_ok_state c (id reqUser) Hledger) as [st Hst].
    destruct (voteComment_accepted now i v reqUser db c Hi Hid)
      as (Hc' & _ & Hout).
    exists st; eexists.
    split; [exact Hst|]. split; [exact Hout|]. split; [exact Hc'|]. split.
    - rewrite voteState_set_updatedAt. by apply toggleVote_transition.
    - intros w Hw. rewrite voteState_set_updatedAt.
      by apply toggleVote_other_state. }
  split; [exact Hrest|].
  intros socket. rewrite on_vote_comment_outcome, on_vote_comment_db.
  apply Hrest.
Qed.

Lemma vote_is_one_transition_witness :
  ∃ st c',
    voteState hello_upvoted (id alice) = Some st
    ∧ outcome (voteComment 1003 501 (voteTypeName Downvote) alice db_upvoted).2
      = None
    ∧ comments (voteComment 1003 501 (voteTypeName Downvote) alice
                            db_upvoted).1 !! 501%N = Some c'
    ∧ voteState c' (id alice) = Some (transition Downvote st)
    ∧ ∀ w, w ≠ id alice → voteState c' w = voteState hello_upvoted w.
Proof.
  apply (vote_is_one_transition db_upvoted 501 hello_upvoted Downvote 1003);
    [apply reachable_db_upvoted | reflexivity].
Defined.

(** C2.  On every database reachable through create, update, delete and
    vote requests of either transport, every stored comment has a
    [voteScore] equal to the number of its upvoters minus the number of
    its downvoters, and no user is both an upvoter and a downvoter. *)
Theorem voteScore_counts_disjoint_ledger db i c :
  reachable db → comments db !! i = Some c →
  voteScore c = Z.of_nat (size (upvoters c)) - Z.of_nat (size (downvoters c))
  ∧ ∀ u, ¬ (u ∈ upvoters c ∧ u ∈ downvoters c).
Proof.
  intros Hreach Hi.
  destruct (reachable_db_ok db Hreach i c Hi) as [_ (Hup & Hdn & Hdisj)].
  unfold voteScore, upvoters, downvoters. split.
  - by rewrite !size_list_to_set.
  - intros u. rewrite !elem_of_list_to_set. intros [? ?]. eauto.
Qed.

Lemma voteScore_counts_disjoint_ledger_witness :
  voteScore hello_upvoted
  = Z.of_nat (size (upvoters hello_upvoted))
    - Z.of_nat (size (downvoters hello_upvoted))
  ∧ ∀ u, ¬ (u ∈ upvoters hello_upvoted ∧ u ∈ downvoters hello_upvoted).
Proof.
  apply (voteScore_counts_disjoint_ledger db_upvoted 501 hello_upvoted);
    [apply reachable_db_upvoted | reflexivity].
Defined.

End Votes.


(** ** Voting twice *)

Section VoteTwice.

Import Sample.

Implicit Types (db : Db) (c : Comment) (i : ObjectId) (v : VoteType).

(** Two toggles of the same type by a user with no vote put the ledger
    back as it was, array for array. *)
Lemma toggleVote_twice_from_none v u c now :
  voteState c u = Some st_none →
  let c'' := toggleVote (voteTypeName v) u
               (set_updatedAt now (toggleVote (voteTypeName v) u c)) in
  upvotes c'' = upvotes c ∧ downvotes c'' = downvotes c.
Proof.
  unfold voteState.
  destruct (bool_decide (u ∈ upvotes c)) eqn:Hup;
    destruct (bool_decide (u ∈ downvotes c)) eqn:Hdn; intros Hst;
    simplify_eq.
  apply bool_decide_eq_false_1 in Hup as Hup'.
  apply bool_decide_eq_false_1 in Hdn as Hdn'.
  destruct v; cbn [voteTypeName].
  - rewrite (toggleVote_upvote u c), Hup, Hdn.
    rewrite toggleVote_upvote. cbn [upvotes downvotes set_upvotes set_updatedAt].
    rewrite bool_decide_eq_true_2
      by (apply elem_of_app; right; by apply list_elem_of_singleton).
    cbn. by rewrite drop_pushed.
  - rewrite (toggleVote_downvote u c), Hup, Hdn.
    rewrite toggleVote_downvote.
    cbn [upvotes downvotes set_downvotes set_updatedAt].
    rewrite bool_decide_eq_true_2
      by (apply elem_of_app; right; by apply list_elem_of_singleton).
    cbn. by rewrite drop_pushed.
Qed.

(** Whatever the starting state, two calls are two transitions. *)
Lemma toggleVote_twice_state v u c st now :
  voteState c u = Some st →
  voteState (toggleVote (voteTypeName v) u
               (set_updatedAt now (toggleVote (voteTypeName v) u c))) u
  = Some (transition v (transition v st)).
Proof.
  intros Hst. apply toggleVote_transition.
  rewrite voteState_set_updatedAt. by apply toggleVote_transition.
Qed.

(** Two accepted votes of the same user and type, over REST. *)
Lemma voteComment_twice now1 now2 i v who db c :
  comments db !! i = Some c → _id c = i →
  comments (voteComment now2 i (voteTypeName v) who
              (voteComment now1 i (voteTypeName v) who db).1).1 !! i
  = Some (set_updatedAt now2
            (toggleVote (voteTypeName v) (id who)
               (set_updatedAt now1
                  (toggleVote (voteTypeName v) (id who) c)))).
Proof.
  intros Hi Hid.
  destruct (voteComment_accepted now1 i v who db c Hi Hid) as (H1 & _ & _).
  eapply voteComment_accepted; [exact H1|].
  cbn. transitivity (_id c); [apply toggleVote_frame | exact Hid].
Qed.

(** C8, as amended.  For every stored comment, every user who has no vote
    on it (state none) and either vote type, two calls of the vote
    operation with that type by that user, on either transport, return the
    pair to none: the user is in neither array and the [voteScore] is the
    original one. *)
Theorem vote_twice_from_none db i c v now1 now2 (who : User) (sid : string) :
  reachable db → comments db !! i = Some c →
  voteState c (id who) = Some st_none →
  let socket := mkSocket sid who in
  let over_rest :=
    (voteComment now2 i (voteTypeName v) who
       (voteComment now1 i (voteTypeName v) who db).1).1 in
  let over_socket :=
    (on_vote_comment now2 i (voteTypeName v) socket
       (on_vote_comment now1 i (voteTypeName v) socket db).1).1 in
  ∀ db'', db'' = over_rest ∨ db'' = over_socket →
    ∃ c'', comments db'' !! i = Some c''
      ∧ voteState c'' (id who) = Some st_none
      ∧ (id who ∉ upvotes c'') ∧ (id who ∉ downvotes c'')
      ∧ voteScore c'' = voteScore c.
Proof.
  intros Hreach Hi Hst socket over_rest over_socket db'' Hdb''.
  assert (db'' = over_rest) as ->.
  { destruct Hdb'' as [->| ->]; [done|].
    unfold over_socket, over_rest. by rewrite !on_vote_comment_db. }
  destruct (reachable_db_ok db Hreach i c Hi) as [Hid _].
  eexists. split; [by apply voteComment_twice|].
  destruct (toggleVote_twice_from_none v (id who) c now1 Hst) as [Hup Hdn].
  unfold voteState, voteScore in *. cbn [upvotes downvotes set_updatedAt].
  rewrite Hup, Hdn.
  destruct (bool_decide (id who ∈ upvotes c)) eqn:Eup;
    destruct (bool_decide (id who ∈ downvotes c)) eqn:Edn; simplify_eq.
  apply bool_decide_eq_false_1 in Eup, Edn. done.
Qed.

Lemma vote_twice_from_none_witness :
  ∃ c'', comments
           (voteComment 1004 501 (voteTypeName Upvote) bob
              (voteComment 1003 501 (voteTypeName Upvote) bob db_upvoted).1).1
           !! 501%N = Some c''
      ∧ voteState c'' (id bob) = Some st_none
      ∧ (id bob ∉ upvotes c'') ∧ (id bob ∉ downvotes c'')
      ∧ voteScore c'' = voteScore hello_upvoted.
Proof.
  apply (vote_twice_from_none db_upvoted 501 hello_upvoted Upvote 1003 1004
           bob "s-bob");
    [apply reachable_db_upvoted | reflexivity | reflexivity
    | left; reflexivity].
Defined.

(** C8 as the specification words it fails: Alice has upvoted comment 501;
    two more upvotes by Alice leave her upvote in place (upvoted, to none,
    to upvoted), so the pair is not at none and she is still in [upvotes]. *)
Lemma vote_twice_not_always_none :
  ¬ (∀ db i c v now1 now2 (who : User),
       reachable db → comments db !! i = Some c →
       ∃ c'', comments
                (voteComment now2 i (voteTypeName v) who
                   (voteComment now1 i (voteTypeName v) who db).1).1 !! i
              = Some c''
         ∧ voteState c'' (id who) = Some st_none
         ∧ (id who ∉ upvotes c'') ∧ (id who ∉ downvotes c'')
         ∧ voteScore c'' = voteScore c).
Proof.
  intros Hclaim.
  destruct (Hclaim db_upvoted 501%N hello_upvoted Upvote 1003%N 1004%N alice
              reachable_db_upvoted eq_refl)
    as (c'' & Hc'' & Hst & _).
  vm_compute in Hc''. injection Hc'' as <-. vm_compute in Hst. discriminate.
Qed.

(** The other way C8 fails: Alice has downvoted 501 (score -1); two upvotes
    do end at none, but the score is then 0, not the original. *)
Lemma vote_twice_from_opposite_moves_score :
  ∃ c c'',
    comments db_downvoted !! 501%N = Some c
    ∧ comments
        (voteComment 1004 501 "upvote" alice
           (voteComment 1003 501 "upvote" alice db_downvoted).1).1 !! 501%N
      = Some c''
    ∧ voteState c (id alice) = Some st_downvoted
    ∧ voteState c'' (id alice) = Some st_none
    ∧ voteScore c = -1 ∧ voteScore c'' = 0.
Proof. do 2 eexists. repeat split; vm_compute; reflexivity. Qed.

(** The specification's scenario: on a fresh comment Alice upvotes
    (score 0 to 1), upvotes again (1 to 0), then downvotes (0 to -1); the
    scores are the ones the controller reports. *)
Lemma vote_scenario :
  let r1 := voteComment 1003 501 "upvote" alice db1 in
  let r2 := voteComment 1004 501 "upvote" alice r1.1 in
  let r3 := voteComment 1005 501 "downvote" alice r2.1 in
  (payload <$> (match r1.2 with Reply r => Some r | _ => None end))
  = Some (VotePayload 1 (Some "upvote"))
  ∧ (payload <$> (match r2.2 with Reply r => Some r | _ => None end))
    = Some (VotePayload 0 None)
  ∧ (payload <$> (match r3.2 with Reply r => Some r | _ => None end))
    = Some (VotePayload (-1) (Some "downvote")).
Proof. repeat split; vm_compute; reflexivity. Qed.

End VoteTwice.

(** ** Deleting *)

Section Delete.

Import Sample.

Implicit Types (db : Db) (c : Comment) (i : ObjectId).

Lemma may_modify_guard who c :
  may_modify who c →
  bool_decide (author c ≠ id who) && negb (String.eqb (role who) "admin")
  = false.
Proof.
  intros [Ha|Hr].
  - rewrite bool_decide_eq_false_2; [done|]. by intros ?.
  - apply String.eqb_eq in Hr. rewrite Hr. apply andb_false_r.
Qed.

Lemma deleteComment_accepted i who db c :
  comments db !! i = Some c → may_modify who c →
  deleteComment i who db
  = (Comment_findByIdAndDelete i (Comment_deleteMany_parent i db),
     reply 200 true "Comment deleted successfully" NoPayload).
Proof.
  intros Hi Hmay. unfold deleteComment, Comment_findById.
  by rewrite Hi, (may_modify_guard who c Hmay).
Qed.

(** The collection splits into the direct replies of [i] and the rest. *)
Lemma size_split_replies i db :
  size (comments db)
  = (size (comments (Comment_deleteMany_parent i db))
     + size (direct_replies i db))%nat.
Proof.
  unfold direct_replies. cbn.
  set (P := fun kc : ObjectId * Comment => parentComment kc.2 ≠ Some i).
  rewrite <- (map_filter_union_complement P (comments db)) at 1.
  rewrite map_size_disj_union by apply map_disjoint_filter_complement.
  f_equal. f_equal. apply map_filter_ext. intros j d _. unfold P. cbn.
  destruct (decide (parentComment d = Some i)); tauto.
Qed.

(** The cascade removes the comment and its direct replies, and counts
    them, whenever the comment is not listed as its own parent. *)
Lemma size_delete_cascade i db c :
  comments db !! i = Some c → parentComment c ≠ Some i →
  size (comments db)
  = (size (comments
             (Comment_findByIdAndDelete i (Comment_deleteMany_parent i db)))
     + size (direct_replies i db) + 1)%nat.
Proof.
  intros Hi Hp. rewrite (size_split_replies i db).
  assert (comments (Comment_deleteMany_parent i db) !! i = Some c) as Hkept.
  { cbn. by apply map_lookup_filter_Some. }
  cbn in *. rewrite map_size_delete_Some by (by eexists).
  assert (size (filter (λ kc : ObjectId * Comment,
                          parentComment kc.2 ≠ Some i) (comments db)) ≠ 0%nat).
  { apply map_size_ne_0_lookup. exists i. by eexists. }
  lia.
Qed.

(** C3, as amended.  For every store state and every comment that is
    deleted by its author or an admin, on either transport: the delete
    removes the comment together with every comment whose [parentComment]
    is its id, whatever the comment's own [parentComment] is.  So a comment
    with N direct replies costs exactly N+1 entities (in particular a
    top-level comment with N replies), and a comment without replies
    exactly 1. *)
Theorem delete_removes_comment_and_replies db i c (who : User) (sid : string) :
  comments db !! i = Some c → may_modify who c →
  ∀ db', db' = (deleteComment i who db).1
         ∨ db' = (on_delete_comment i (mkSocket sid who) db).1 →
    (∀ j d, comments db' !! j = Some d
            ↔ comments db !! j = Some d ∧ j ≠ i ∧ parentComment d ≠ Some i)
    ∧ (parentComment c ≠ Some i →
       size (comments db)
       = (size (comments db') + size (direct_replies i db) + 1)%nat)
    ∧ (parentComment c = None →
       size (comments db)
       = (size (comments db') + size (direct_replies i db) + 1)%nat)
    ∧ (direct_replies i db = ∅ →
       size (comments db) = (size (comments db') + 1)%nat).
Proof.
  intros Hi Hmay db' Hdb'.
  assert (db' = Comment_findByIdAndDelete i (Comment_deleteMany_parent i db))
    as ->.
  { destruct Hdb' as [->| ->]; [|rewrite on_delete_comment_db; cbn [user]];
      by rewrite (deleteComment_accepted i who db c Hi Hmay). }
  split; [|split; [|split]].
  - intros j d. apply lookup_delete_cascade.
  - intros Hp. by apply size_delete_cascade with c.
  - intros Hp. apply size_delete_cascade with c; [done|]. by rewrite Hp.
  - intros Hnone.
    assert (parentComment c ≠ Some i) as Hp.
    { intros Hself.
      assert (direct_replies i db !! i = Some c) as Hin
        by by apply map_lookup_filter_Some.
      rewrite Hnone in Hin. by rewrite lookup_empty in Hin. }
    rewrite (size_delete_cascade i db c Hi Hp), Hnone, map_size_empty. lia.
Qed.

Lemma delete_removes_comment_and_replies_witness :
  size (comments db3)
  = (size (comments (deleteComment 501 alice db3).1)
     + size (direct_replies 501 db3) + 1)%nat.
Proof.
  refine (proj1 (proj2 (proj2
            (delete_removes_comment_and_replies db3 501 hello alice "s-alice"
               _ _ (deleteComment 501 alice db3).1 _))) _);
    [reflexivity | left; reflexivity | left; reflexivity | reflexivity].
Defined.

(** C3 as the specification words it fails on replies.  In [db3] comment
    502 is a reply (to 501) that has a reply of its own (503).  Bob, its
    author, deletes 502: two documents go, 502 and 503, and of the three
    comments only 501 is left. *)
Lemma delete_reply_with_replies_removes_two :
  ¬ (∀ db i c (who : User),
       reachable db → comments db !! i = Some c → may_modify who c →
       parentComment c ≠ None →
       size (comments db) = (size (comments (deleteComment i who db).1) + 1)%nat).
Proof.
  intros Hclaim.
  specialize (Hclaim db3 502%N hi bob reachable_db3 eq_refl
                (or_introl eq_refl)).
  assert (parentComment hi ≠ None) as Hp by discriminate.
  specialize (Hclaim Hp). vm_compute in Hclaim. discriminate.
Qed.

End Delete.

(** ** Creating *)

Section Create.

Import Sample.

Implicit Types (db : Db) (c : Comment) (i : ObjectId).

Lemma save_new_accepted now newId raw text userId b parent db :
  castContent raw = Some text → comments db !! newId = None →
  let c := mkComment newId text userId b parent [] [] false now now in
  save_new now newId raw userId (Some b) parent db
  = Some (c, set_comments (<[newId := c]> (comments db)) db).
Proof.
  intros Htext Hfresh. unfold save_new. rewrite Htext.
  rewrite bool_decide_eq_false_2; [done|]. by apply not_elem_of_dom.
Qed.

(** C4, as amended.  A create request whose [parentCommentId] names an
    existing comment that is itself a reply is treated like any other
    reply: with an existing blog post (the REST controller checks it),
    content that passes the schema and an unused [_id], both transports
    store the new comment under that parent and report success; neither
    raises a validation error for replying to a reply. *)
Theorem create_reply_to_reply_is_stored
    db now newId raw text b p parent (who : User) (sid : string) :
  comments db !! p = Some parent → parentComment parent ≠ None →
  b ∈ blogs db → castContent raw = Some text →
  comments db !! newId = None →
  let c := mkComment newId text (id who) b (Some p) [] [] false now now in
  let db' := set_comments (<[newId := c]> (comments db)) db in
  createComment now newId raw (Some b) (Some p) who db
  = (db', reply 201 true "Comment created successfully" (CommentPayload c))
  ∧ on_new_comment now newId raw (Some b) (Some p) (mkSocket sid who) db
    = (db', ToRoom b (comment_created c (Some p))).
Proof.
  intros Hp _ Hb Htext Hfresh c db'. split.
  - unfold createComment, Blog_findById, Comment_findById.
    rewrite bool_decide_eq_true_2 by done. rewrite Hp.
    by rewrite (save_new_accepted now newId raw text (id who) b (Some p) db).
  - unfold on_new_comment. cbn [user].
    by rewrite (save_new_accepted now newId raw text (id who) b (Some p) db).
Qed.

Lemma create_reply_to_reply_is_stored_witness :
  let c := mkComment 503 (code_units "nested") (id alice) article (Some 502%N)
                     [] [] false 1002 1002 in
  let db' := set_comments (<[503%N := c]> (comments db2)) db2 in
  createComment 1002 503 (Some (code_units " nested ")) (Some article)
                (Some 502%N) alice db2
  = (db', reply 201 true "Comment created successfully" (CommentPayload c))
  ∧ on_new_comment 1002 503 (Some (code_units " nested ")) (Some article)
                   (Some 502%N) (mkSocket "s-alice" alice) db2
    = (db', ToRoom article (comment_created c (Some 502%N))).
Proof.
  apply (create_reply_to_reply_is_stored db2 1002 503
           (Some (code_units " nested ")) (code_units "nested") article 502
           hi alice "s-alice");
    [reflexivity | discriminate | vm_compute; reflexivity
    | vm_compute; reflexivity | reflexivity].
Defined.

(** C4 as the specification words it fails: in [db2] comment 502 is a
    reply; Alice's request to reply to it is answered 201 and stored. *)
Lemma create_reply_to_reply_not_rejected :
  ¬ (∀ db now newId raw blogId p parent (who : User),
       reachable db → comments db !! p = Some parent →
       parentComment parent ≠ None →
       let r := createComment now newId raw blogId (Some p) who db in
       outcome r.2 = Some ValidationError ∧ r.1 = db).
Proof.
  intros Hclaim.
  assert (parentComment hi ≠ None) as Hp by discriminate.
  destruct (Hclaim db2 1002%N 503%N (Some (code_units "nested"))
              (Some article) 502%N hi alice reachable_db2 eq_refl Hp)
    as [Hout _].
  vm_compute in Hout. discriminate.
Qed.

(** The socket handler stores the same reply to a reply. *)
Lemma new_comment_reply_to_reply_not_rejected :
  let r := on_new_comment 1002 503 (Some (code_units "nested")) (Some article)
                          (Some 502%N) bob_socket db2 in
  outcome r.2 = None
  ∧ (parentComment <$> comments r.1 !! 503%N) = Some (Some 502%N)
  ∧ (parentComment <$> comments r.1 !! 502%N) = Some (Some 501%N).
Proof. repeat split; vm_compute; reflexivity. Qed.

(** C6, at the input where the transports part.  Bob asks for a comment on
    article 999, which does not exist, and for a reply to comment 777,
    which does not exist.  The REST controller refuses both with 404 and
    stores nothing; the socket handler runs neither check, stores both
    comments and broadcasts them. *)
Theorem create_checks_differ_between_transports :
  let body := Some (code_units "x") in
  let rest_blog := createComment 1005 504 body (Some 999%N) None bob db1 in
  let sock_blog :=
    on_new_comment 1005 504 body (Some 999%N) None bob_socket db1 in
  let rest_parent :=
    createComment 1005 504 body (Some article) (Some 777%N) bob db1 in
  let sock_parent :=
    on_new_comment 1005 504 body (Some article) (Some 777%N) bob_socket db1 in
  (outcome rest_blog.2 = Some NotFound ∧ rest_blog.1 = db1)
  ∧ (outcome sock_blog.2 = None ∧ is_Some (comments sock_blog.1 !! 504%N))
  ∧ (outcome rest_parent.2 = Some NotFound ∧ rest_parent.1 = db1)
  ∧ (outcome sock_parent.2 = None
     ∧ is_Some (comments sock_parent.1 !! 504%N)).
Proof.
  repeat split; try (vm_compute; reflexivity); by eexists.
Qed.

End Create.

(** ** Updating *)

Section Update.

Import Sample.

Implicit Types (db : Db) (c : Comment) (i : ObjectId).

(** An update that is not refused went through the lookup, the
    author-or-admin check and the schema. *)
Lemma updateComment_success now i raw who db :
  outcome (updateComment now i raw who db).2 = None →
  ∃ c text,
    comments db !! i = Some c ∧ castContent raw = Some text
    ∧ (updateComment now i raw who db).1
      = save_existing now
          (mkComment (_id c) text (author c) (blog c) (parentComment c)
                     (upvotes c) (downvotes c) true (createdAt c) now) db.
Proof.
  unfold updateComment, Comment_findById, editComment.
  destruct (comments db !! i) as [c|]; [|done].
  case_match; [done|].
  destruct (castContent raw) as [text|]; [|done].
  intros _. by exists c, text.
Qed.

(** C10.  On every database the server can reach, an update that succeeds,
    on either transport, rewrites the target comment's [content],
    [isEdited] and [updatedAt] and nothing else: the target keeps its
    [_id], [author], [blog], [parentComment], [upvotes], [downvotes] and
    [createdAt], every other comment is as before, and so is the set of
    blogs. *)
Theorem update_touches_only_content_fields
    db now i raw (who : User) (sid : string) (r : Db * Output) :
  reachable db →
  r = updateComment now i raw who db
  ∨ r = on_update_comment now i raw (mkSocket sid who) db →
  outcome r.2 = None →
  ∃ c c' text,
    comments db !! i = Some c ∧ comments r.1 !! i = Some c'
    ∧ castContent raw = Some text
    ∧ (content c' = text ∧ isEdited c' = true ∧ updatedAt c' = now)
    ∧ (_id c' = _id c ∧ author c' = author c ∧ blog c' = blog c
       ∧ parentComment c' = parentComment c ∧ upvotes c' = upvotes c
       ∧ downvotes c' = downvotes c ∧ createdAt c' = createdAt c)
    ∧ (∀ j, j ≠ i → comments r.1 !! j = comments db !! j)
    ∧ blogs r.1 = blogs db.
Proof.
  intros Hreach Hr Hout.
  assert (outcome (updateComment now i raw who db).2 = None
          ∧ r.1 = (updateComment now i raw who db).1) as [Hout' ->].
  { destruct Hr as [->| ->]; [done|].
    rewrite on_update_comment_outcome in Hout.
    split; [exact Hout | apply on_update_comment_db]. }
  destruct (updateComment_success now i raw who db Hout')
    as (c & text & Hi & Htext & ->).
  destruct (reachable_db_ok db Hreach i c Hi) as [Hid _].
  eexists c, _, text. split; [done|]. split.
  { rewrite lookup_save_existing. cbn [_id]. by rewrite decide_True. }
  split; [done|]. cbn. repeat split.
  intros j Hj. rewrite lookup_insert_ne; [done|]. by rewrite Hid.
Qed.

Lemma update_touches_only_content_fields_witness :
  ∃ c c' text,
    comments db2 !! 502%N = Some c
    ∧ comments (on_update_comment 1010 502 (Some (code_units "Hi there"))
                  bob_socket db2).1 !! 502%N = Some c'
    ∧ castContent (Some (code_units "Hi there")) = Some text
    ∧ (content c' = text ∧ isEdited c' = true ∧ updatedAt c' = 1010%N)
    ∧ (_id c' = _id c ∧ author c' = author c ∧ blog c' = blog c
       ∧ parentComment c' = parentComment c ∧ upvotes c' = upvotes c
       ∧ downvotes c' = downvotes c ∧ createdAt c' = createdAt c)
    ∧ (∀ j, j ≠ 502%N →
         comments (on_update_comment 1010 502 (Some (code_units "Hi there"))
                     bob_socket db2).1 !! j = comments db2 !! j)
    ∧ blogs (on_update_comment 1010 502 (Some (code_units "Hi there"))
               bob_socket db2).1 = blogs db2.
Proof.
  apply (update_touches_only_content_fields db2 1010 502
           (Some (code_units "Hi there")) bob "s-bob"
           (on_update_comment 1010 502 (Some (code_units "Hi there"))
              bob_socket db2));
    [apply reachable_db2 | right; reflexivity | vm_compute; reflexivity].
Defined.

End Update.

(** ** Who hears of a mutation *)

Section Broadcast.

Import Sample.

Implicit Types (db : Db) (q : Request) (rooms : gmap ObjectId (gset string)).

(** A controller ends in an HTTP reply, whatever the request. *)
Lemma rest_replies now newId who q db :
  ∃ r, (rest now newId who q db).2 = Reply r.
Proof.
  destruct q; cbn [rest];
    unfold createComment, updateComment, deleteComment, voteComment, reply;
    repeat case_match; cbn [snd]; eauto.
Qed.

(** A socket handler that does not refuse emits to the room of the blog
    post the request is about, and the event answers the request. *)
Lemma live_success_emits now newId socket q db :
  db_ok db →
  outcome (live now newId socket q db).2 = None →
  ∃ b e, (live now newId socket q db).2 = ToRoom b e
         ∧ content_item q db = Some b ∧ answers q e.
Proof.
  intros Hok.
  destruct q as [raw blogId parent|i raw|i|i voteType]; cbn [live content_item].
  - unfold on_new_comment. destruct blogId as [b|]; [|done].
    destruct (save_new _ _ _ _ _ _ _) as [[c db']|]; [|done].
    intros _. exists b; eexists. by repeat split.
  - unfold on_update_comment, Comment_findById, editComment.
    destruct (comments db !! i) as [c|] eqn:Hi; [|done].
    case_match; [done|].
    destruct (castContent raw) as [text|]; [|done].
    intros _. do 2 eexists. repeat split. cbn. by apply Hok.
  - unfold on_delete_comment, Comment_findById.
    destruct (comments db !! i) as [c|] eqn:Hi; [|done].
    case_match; [done|].
    intros _. do 2 eexists. by repeat split.
  - unfold on_vote_comment, Comment_findById.
    case_match; [done|].
    destruct (comments db !! i) as [c|] eqn:Hi; [|done].
    intros _. do 2 eexists. repeat split.
    + cbn. f_equal. symmetry. apply toggleVote_frame.
    + cbn. transitivity (_id c); [apply toggleVote_frame | by apply Hok].
Qed.

(** C7, as amended.  A mutation handled by the REST controllers is answered
    to its caller only: whatever the rooms, no connection receives an
    event for it.  A mutation that succeeds over the socket is broadcast:
    the event that answers the request goes to the room of the blog post
    concerned, and every member of that room receives it. *)
Theorem only_live_mutations_are_broadcast
    rooms db now newId (who : User) (sid : string) q :
  reachable db →
  (∀ origin member,
      delivered rooms origin (rest now newId who q db).2 member = None)
  ∧ (outcome (live now newId (mkSocket sid who) q db).2 = None →
     ∃ b e,
       content_item q db = Some b ∧ answers q e
       ∧ ∀ member, member ∈ default ∅ (rooms !! b) →
           delivered rooms (Some sid)
                     (live now newId (mkSocket sid who) q db).2 member
           = Some e).
Proof.
  intros Hreach. split.
  - intros origin member.
    destruct (rest_replies now newId who q db) as [r ->]. reflexivity.
  - intros Hout.
    destruct (live_success_emits now newId (mkSocket sid who) q db
                (reachable_db_ok db Hreach) Hout)
      as (b & e & -> & Hb & He).
    exists b, e. repeat split; [done..|].
    intros member Hin. cbn. by rewrite bool_decide_eq_true_2.
Qed.

Lemma only_live_mutations_are_broadcast_witness :
  (∀ origin member,
      delivered {[article := {["s-bob"; "s-carol"]}]} origin
        (rest 1010 0 bob (Vote 501 "upvote") db2).2 member = None)
  ∧ ∃ b e,
      content_item (Vote 501 "upvote") db2 = Some b
      ∧ answers (Vote 501 "upvote") e
      ∧ ∀ member,
          member ∈ default ∅
            (({[article := {["s-bob"; "s-carol"]}]}
               : gmap ObjectId (gset string)) !! b) →
          delivered {[article := {["s-bob"; "s-carol"]}]} (Some "s-bob")
            (live 1010 0 (mkSocket "s-bob" bob) (Vote 501 "upvote") db2).2
            member
          = Some e.
Proof.
  destruct (only_live_mutations_are_broadcast
              {[article := {["s-bob"; "s-carol"]}]} db2 1010 0 bob "s-bob"
              (Vote 501 "upvote") reachable_db2) as [Hrest Hlive].
  split; [exact Hrest | apply Hlive; vm_compute; reflexivity].
Defined.

(** C7 as the specification words it fails: Carol's connection is in the
    room of the article; Alice posts "Hello" through the REST controller,
    which answers 201 and stores the comment; Carol receives nothing. *)
Lemma rest_create_reaches_no_room_member :
  ¬ (∀ rooms db now newId (who : User) q b member,
       reachable db →
       outcome (rest now newId who q db).2 = None →
       content_item q db = Some b →
       member ∈ default ∅ (rooms !! b) →
       ∃ e, answers q e
            ∧ delivered rooms None (rest now newId who q db).2 member
              = Some e).
Proof.
  intros Hclaim.
  destruct (Hclaim {[article := {["s-carol"]}]} db0 1000%N 501%N alice
              (Create (Some (code_units "Hello")) (Some article) None)
              article "s-carol" reachable_db0)
    as (e & _ & He).
  - vm_compute. reflexivity.
  - reflexivity.
  - rewrite lookup_singleton_eq. cbn. by apply elem_of_singleton.
  - vm_compute in He. discriminate.
Qed.

(** Rooms: joining makes a member, leaving unmakes one, and joining twice
    is joining once. *)
Lemma join_blog_member b s rooms :
  socket_id s ∈ default ∅ (join_blog b s rooms !! b).
Proof.
  unfold join_blog. rewrite lookup_insert_eq. cbn.
  apply elem_of_union_l. by apply elem_of_singleton.
Qed.

Lemma leave_blog_not_member b s rooms :
  socket_id s ∉ default ∅ (leave_blog b s rooms !! b).
Proof.
  unfold leave_blog. rewrite lookup_insert_eq. cbn.
  rewrite elem_of_difference. intros [_ Hout]. apply Hout.
  by apply elem_of_singleton.
Qed.

Lemma join_blog_idempotent b s rooms :
  join_blog b s (join_blog b s rooms) = join_blog b s rooms.
Proof.
  unfold join_blog. rewrite lookup_insert_eq, insert_insert_eq. cbn.
  f_equal. by rewrite (assoc_L (∪)), union_idemp_L.
Qed.

(** C6 beyond create: for update, delete and vote the two transports accept
    and refuse alike and write the same database. *)
Lemma transports_agree_beyond_create now newId (who : User) (sid : string) q db :
  (∀ raw blogId parent, q ≠ Create raw blogId parent) →
  outcome (live now newId (mkSocket sid who) q db).2
  = outcome (rest now newId who q db).2
  ∧ (live now newId (mkSocket sid who) q db).1 = (rest now newId who q db).1.
Proof.
  intros Hq. destruct q as [raw blogId parent| | |]; cbn [live rest].
  - by destruct (Hq raw blogId parent).
  - split; [apply on_update_comment_outcome | apply on_update_comment_db].
  - split; [apply on_delete_comment_outcome | apply on_delete_comment_db].
  - split; [apply on_vote_comment_outcome | apply on_vote_comment_db].
Qed.

End Broadcast.

(** ** The page's listener for [comment-created] *)

Section Reconciler.

Import CommentSection.

Implicit Types (comment c : CommentType) (prev : list CommentType).

Lemma truthy_Some p : p ≠ "" → truthy (Some p) = true.
Proof.
  intros Hp. cbn. apply negb_true_iff. by apply String.eqb_neq.
Qed.

(** With a parent id the listener maps over the list, entry by entry. *)
Lemma on_comment_created_lookup comment p prev k c :
  p ≠ "" → prev !! k = Some c →
  on_comment_created comment (Some p) prev !! k
  = Some (if decide (_id c = p) then add_reply comment c else c).
Proof.
  intros Hp. unfold on_comment_created. rewrite (truthy_Some p Hp).
  cbn [negb]. revert k.
  induction prev as [|d prev IH]; intros k Hk; [done|].
  destruct k as [|k]; cbn in *.
  - simplify_eq. repeat case_decide; repeat case_bool_decide; congruence.
  - by apply IH.
Qed.

Lemma on_comment_created_length comment p prev :
  p ≠ "" →
  length (on_comment_created comment (Some p) prev) = length prev.
Proof.
  intros Hp. unfold on_comment_created. rewrite (truthy_Some p Hp).
  apply length_map.
Qed.

Lemma on_comment_created_unknown_parent comment p prev :
  p ≠ "" → (∀ c, c ∈ prev → _id c ≠ p) →
  on_comment_created comment (Some p) prev = prev.
Proof.
  intros Hp Hnone. unfold on_comment_created. rewrite (truthy_Some p Hp).
  cbn [negb].
  induction prev as [|d prev IH]; [done|]. cbn.
  rewrite bool_decide_eq_false_2.
  - f_equal. apply IH. intros c Hc. apply Hnone. by right.
  - intros [= Hd]. apply (Hnone d); [by left | done].
Qed.

(** C9.  For every list of top-level comments the page holds and every
    [comment-created] event: without a parent id the new comment becomes
    the head of the list; with a parent id (a non-empty string) every
    top-level comment of that id gets the new comment appended to its
    replies ([[]] standing for a missing replies field) while all other
    entries, the order and the length stay; and if no top-level comment
    has that id the list is unchanged. *)
Theorem comment_created_merge comment prev :
  on_comment_created comment None prev = comment :: prev
  ∧ (∀ p, p ≠ "" →
       length (on_comment_created comment (Some p) prev) = length prev
       ∧ ∀ k c, prev !! k = Some c →
           (_id c = p →
            ∃ c', on_comment_created comment (Some p) prev !! k = Some c'
                  ∧ replies c' = Some (default [] (replies c) ++ [comment])
                  ∧ _id c' = _id c ∧ content c' = content c
                  ∧ voteScore c' = voteScore c)
           ∧ (_id c ≠ p →
              on_comment_created comment (Some p) prev !! k = Some c))
  ∧ (∀ p, p ≠ "" → (∀ c, c ∈ prev → _id c ≠ p) →
       on_comment_created comment (Some p) prev = prev).
Proof.
  split; [reflexivity|]. split.
  - intros p Hp. split; [by apply on_comment_created_length|].
    intros k c Hk.
    pose proof (on_comment_created_lookup comment p prev k c Hp Hk) as Hnew.
    split; intros Hid.
    + rewrite decide_True in Hnew by done. eexists. split; [exact Hnew|].
      by repeat split.
    + by rewrite decide_False in Hnew.
  - intros p Hp. by apply on_comment_created_unknown_parent.
Qed.

Lemma comment_created_merge_witness :
  on_comment_created PageSample.incoming None PageSample.page
  = PageSample.incoming :: PageSample.page
  ∧ (∃ c',
       on_comment_created PageSample.incoming (Some "c1") PageSample.page
         !! 0%nat = Some c'
       ∧ replies c' = Some ([PageSample.first_reply] ++ [PageSample.incoming])
       ∧ _id c' = "c1" ∧ content c' = "Hello" ∧ voteScore c' = 0)
  ∧ on_comment_created PageSample.incoming (Some "c1") PageSample.page
      !! 1%nat = Some PageSample.second
  ∧ on_comment_created PageSample.incoming (Some "c7") PageSample.page
    = PageSample.page.
Proof.
  destruct (comment_created_merge PageSample.incoming PageSample.page)
    as (Hhead & Hreply & Hdrop).
  destruct (Hreply "c1") as [_ Hat]; [discriminate|].
  split; [exact Hhead|]. split; [|split].
  - destruct (Hat 0%nat PageSample.first eq_refl) as [Hmatch _].
    exact (Hmatch eq_refl).
  - destruct (Hat 1%nat PageSample.second eq_refl) as [_ Hother].
    apply Hother. discriminate.
  - apply (Hdrop "c7"); [discriminate|].
    intros c Hc. unfold PageSample.page in Hc.
    apply elem_of_cons in Hc as [->|Hc]; [discriminate|].
    apply list_elem_of_singleton in Hc as ->. discriminate.
Defined.

(** An empty string is no parent id: [!parentId] holds and the comment is
    shown at top level. *)
Lemma on_comment_created_empty_parent comment prev :
  on_comment_created comment (Some "") prev = comment :: prev.
Proof. reflexivity. Qed.

End Reconciler.

(** * Further properties of the handlers *)

(** ** Refusals *)

Section Refusals.

Import Sample.

Implicit Types (db : Db) (c : Comment) (i : ObjectId) (q : Request)
  (t : Transport).

Lemma rest_refused_db now newId who q db k :
  outcome (rest now newId who q db).2 = Some k → (rest now newId who q db).1 = db.
Proof.
  destruct q; cbn [rest];
    unfold createComment, updateComment, deleteComment, voteComment;
    repeat case_match; cbn; done.
Qed.

Lemma live_refused_db now newId s q db k :
  outcome (live now newId s q db).2 = Some k →
  (live now newId s q db).1 = db
  ∧ ∃ text, (live now newId s q db).2 = ToSocket (comment_error text).
Proof.
  destruct q; cbn [live];
    unfold on_new_comment, on_update_comment, on_delete_comment,
      on_vote_comment;
    repeat case_match; cbn; try done; eauto.
Qed.

(** X1.  A request that is refused, for whatever reason and on either
    transport, leaves the database as it was; over the socket the refusal
    is a [comment-error] sent to the asking connection, and no other
    connection receives anything. *)
Theorem refused_request_changes_nothing
    rooms t now newId (who : User) (sid : string) q db k :
  outcome (handle t now newId who sid q db).2 = Some k →
  (handle t now newId who sid q db).1 = db
  ∧ ∀ member, member ≠ sid →
      delivered rooms (Some sid) (handle t now newId who sid q db).2 member
      = None.
Proof.
  destruct t; cbn [handle]; intros Hk.
  - split; [by eapply rest_refused_db|].
    intros member _.
    destruct (rest_replies now newId who q db) as [r ->]. reflexivity.
  - destruct (live_refused_db _ _ _ _ _ _ Hk) as [Hdb [text Hout]].
    split; [done|]. intros member Hne. rewrite Hout. cbn.
    rewrite bool_decide_eq_false_2; [done|]. congruence.
Qed.

Lemma refused_request_changes_nothing_witness :
  (handle ViaSocket 1010 0 alice "s-alice" (Delete 502) db2).1 = db2
  ∧ ∀ member, member ≠ "s-alice" →
      delivered {[article := {["s-alice"; "s-bob"]}]} (Some "s-alice")
        (handle ViaSocket 1010 0 alice "s-alice" (Delete 502) db2).2 member
      = None.
Proof.
  apply (refused_request_changes_nothing
           {[article := {["s-alice"; "s-bob"]}]} ViaSocket 1010 0 alice
           "s-alice" (Delete 502) db2 Forbidden).
  vm_compute. reflexivity.
Defined.

End Refusals.

(** ** Who may change a comment *)

Section Authorization.

Import Sample.

Implicit Types (db : Db) (c : Comment) (i : ObjectId) (t : Transport).

Lemma stranger_guard who c :
  ¬ may_modify who c →
  bool_decide (author c ≠ id who) && negb (String.eqb (role who) "admin")
  = true.
Proof.
  intros Hno. apply andb_true_iff. split.
  - apply bool_decide_eq_true_2. intros Ha. apply Hno. by left.
  - apply negb_true_iff, String.eqb_neq. intros Hr. apply Hno. by right.
Qed.

(** X2.  A user who is neither the author of a comment nor an admin can neither
    edit nor delete it: both requests are refused as forbidden on either
    transport, and the database stays as it was. *)
Theorem stranger_cannot_modify t now newId (who : User) (sid : string)
    db i c raw :
  comments db !! i = Some c → ¬ may_modify who c →
  handle t now newId who sid (Update i raw) db
  = (db, match t with
         | ViaRest =>
             reply 403 false "You are not authorized to update this comment"
                   NoPayload
         | ViaSocket =>
             ToSocket (comment_error "Not authorized to update this comment")
         end)
  ∧ handle t now newId who sid (Delete i) db
    = (db, match t with
           | ViaRest =>
               reply 403 false "You are not authorized to delete this comment"
                     NoPayload
           | ViaSocket =>
               ToSocket (comment_error "Not authorized to delete this comment")
           end)
  ∧ outcome (handle t now newId who sid (Update i raw) db).2 = Some Forbidden
  ∧ outcome (handle t now newId who sid (Delete i) db).2 = Some Forbidden.
Proof.
  intros Hi Hno. pose proof (stranger_guard who c Hno) as Hguard.
  destruct t; cbn [handle rest live];
    unfold updateComment, deleteComment, on_update_comment, on_delete_comment,
      Comment_findById; cbn [user]; rewrite Hi, Hguard; done.
Qed.

Lemma stranger_cannot_modify_witness :
  handle ViaRest 1010 0 alice "s-alice" (Update 502 (Some (code_units "x"))) db2
  = (db2, reply 403 false "You are not authorized to update this comment"
                NoPayload)
  ∧ handle ViaRest 1010 0 alice "s-alice" (Delete 502) db2
    = (db2, reply 403 false "You are not authorized to delete this comment"
                  NoPayload)
  ∧ outcome (handle ViaRest 1010 0 alice "s-alice"
               (Update 502 (Some (code_units "x"))) db2).2 = Some Forbidden
  ∧ outcome (handle ViaRest 1010 0 alice "s-alice" (Delete 502) db2).2
    = Some Forbidden.
Proof.
  apply (stranger_cannot_modify ViaRest 1010 0 alice "s-alice" db2 502 hi
           (Some (code_units "x")));
    [reflexivity | intros [Ha|Hr]; discriminate].
Defined.

(** X3.  The author of a comment, and any admin, gets through: the delete is
    accepted, and the edit is accepted exactly when the new content passes
    the schema (otherwise it fails as a server error, not as forbidden). *)
Theorem author_and_admin_can_modify t now newId (who : User) (sid : string)
    db i c raw :
  comments db !! i = Some c → may_modify who c →
  outcome (handle t now newId who sid (Delete i) db).2 = None
  ∧ (is_Some (castContent raw) →
     outcome (handle t now newId who sid (Update i raw) db).2 = None)
  ∧ (castContent raw = None →
     outcome (handle t now newId who sid (Update i raw) db).2 = Some Failure).
Proof.
  intros Hi Hmay. pose proof (may_modify_guard who c Hmay) as Hguard.
  destruct t; cbn [handle rest live];
    unfold updateComment, deleteComment, on_update_comment, on_delete_comment,
      Comment_findById, editComment; cbn [user]; rewrite Hi, Hguard;
    (split; [done|]); split.
  all: try (intros [text ->]; done).
  all: intros ->; done.
Qed.

Lemma author_and_admin_can_modify_witness :
  outcome (handle ViaSocket 1010 0 (mkUser 9 "admin") "s-root" (Delete 502)
             db2).2 = None
  ∧ outcome (handle ViaSocket 1010 0 (mkUser 9 "admin") "s-root"
               (Update 502 (Some (code_units "ok"))) db2).2 = None
  ∧ outcome (handle ViaSocket 1010 0 (mkUser 9 "admin") "s-root"
               (Update 502 (Some (code_units "   "))) db2).2 = Some Failure.
Proof.
  destruct (author_and_admin_can_modify ViaSocket 1010 0 (mkUser 9 "admin")
              "s-root" db2 502 hi (Some (code_units "ok")) eq_refl
              (or_intror eq_refl)) as (Hdel & Hok & _).
  destruct (author_and_admin_can_modify ViaSocket 1010 0 (mkUser 9 "admin")
              "s-root" db2 502 hi (Some (code_units "   ")) eq_refl
              (or_intror eq_refl)) as (_ & _ & Hbad).
  split; [exact Hdel|]. split.
  - apply Hok. by eexists.
  - apply Hbad. vm_compute. reflexivity.
Defined.

End Authorization.

(** ** Missing comments, unknown vote types, bad content *)

Section EdgeRequests.

Import Sample.

Implicit Types (db : Db) (c : Comment) (i : ObjectId) (t : Transport).

(** X4.  Editing, deleting or voting on an id that is not in the collection is
    answered "not found" on either transport, whoever asks, and changes
    nothing. *)
Theorem missing_comment_is_not_found t now newId (who : User) (sid : string)
    db i raw v :
  comments db !! i = None →
  ∀ q, q = Update i raw ∨ q = Delete i ∨ q = Vote i (voteTypeName v) →
    outcome (handle t now newId who sid q db).2 = Some NotFound
    ∧ (handle t now newId who sid q db).1 = db.
Proof.
  intros Hi q [->|[->| ->]]; destruct t; cbn [handle rest live];
    unfold updateComment, deleteComment, voteComment, on_update_comment,
      on_delete_comment, on_vote_comment, Comment_findById;
    rewrite ?validVoteType_name, Hi; done.
Qed.

Lemma missing_comment_is_not_found_witness :
  outcome (handle ViaSocket 1010 0 bob "s-bob" (Vote 777 (voteTypeName Upvote))
             db2).2 = Some NotFound
  ∧ (handle ViaSocket 1010 0 bob "s-bob" (Vote 777 (voteTypeName Upvote))
       db2).1 = db2.
Proof.
  apply (missing_comment_is_not_found ViaSocket 1010 0 bob "s-bob" db2 777
           None Upvote); [reflexivity | right; right; reflexivity].
Defined.

Lemma validVoteType_false voteType :
  voteType ≠ "upvote" → voteType ≠ "downvote" →
  validVoteType voteType = false.
Proof.
  intros Hu Hd. unfold validVoteType. apply bool_decide_eq_false_2.
  rewrite !elem_of_cons, elem_of_nil. tauto.
Qed.

(** X5.  A vote whose type is neither ['upvote'] nor ['downvote'] is refused as
    invalid before the comment is even looked up: the answer is the same
    for a stored and for a missing comment, and nothing changes. *)
Theorem unknown_vote_type_is_invalid t now newId (who : User) (sid : string)
    db i voteType :
  voteType ≠ "upvote" → voteType ≠ "downvote" →
  outcome (handle t now newId who sid (Vote i voteType) db).2
  = Some ValidationError
  ∧ (handle t now newId who sid (Vote i voteType) db).1 = db.
Proof.
  intros Hu Hd. pose proof (validVoteType_false voteType Hu Hd) as Hv.
  destruct t; cbn [handle rest live]; unfold voteComment, on_vote_comment;
    rewrite Hv; done.
Qed.

Lemma unknown_vote_type_is_invalid_witness :
  outcome (handle ViaRest 1010 0 bob "s-bob" (Vote 501 "Upvote") db2).2
  = Some ValidationError
  ∧ (handle ViaRest 1010 0 bob "s-bob" (Vote 501 "Upvote") db2).1 = db2.
Proof.
  apply (unknown_vote_type_is_invalid ViaRest 1010 0 bob "s-bob" db2 501
           "Upvote"); discriminate.
Defined.

Lemma castContent_None raw :
  raw = None
  ∨ (∃ s, raw = Some s ∧ (trim s = [] ∨ (1000 < length (trim s))%nat)) →
  castContent raw = None.
Proof.
  intros [->|(s & -> & Hs)]; [done|]. cbn.
  rewrite bool_decide_eq_false_2; [done|].
  destruct Hs as [->|Hlong]; cbn; lia.
Qed.

(** X6.  Content that is missing, blank after trimming, or longer than 1000
    code units after trimming is never stored: a create or an edit carrying
    it is refused on either transport, and the database stays as it was. *)
Theorem bad_content_is_never_stored t now newId (who : User) (sid : string)
    db raw :
  raw = None
  ∨ (∃ s, raw = Some s ∧ (trim s = [] ∨ (1000 < length (trim s))%nat)) →
  ∀ q, (∃ blogId parent, q = Create raw blogId parent)
       ∨ (∃ i, q = Update i raw) →
    is_Some (outcome (handle t now newId who sid q db).2)
    ∧ (handle t now newId who sid q db).1 = db.
Proof.
  intros Hraw%castContent_None q [(blogId & parent & ->)|(i & ->)];
    destruct t; cbn [handle rest live];
    unfold createComment, on_new_comment, updateComment, on_update_comment,
      save_new, editComment; rewrite ?Hraw;
    repeat case_match; cbn; eauto.
Qed.

Lemma bad_content_is_never_stored_witness :
  is_Some (outcome (handle ViaSocket 1010 504 bob "s-bob"
                      (Create (Some (code_units "  ")) (Some article) None)
                      db2).2)
  ∧ (handle ViaSocket 1010 504 bob "s-bob"
       (Create (Some (code_units "  ")) (Some article) None) db2).1 = db2.
Proof.
  apply (bad_content_is_never_stored ViaSocket 1010 504 bob "s-bob" db2
           (Some (code_units "  "))).
  - right. exists (code_units "  "). split; [reflexivity|]. left.
    vm_compute. reflexivity.
  - left. by exists (Some article), None.
Defined.

End EdgeRequests.

(** ** What is stored as content *)

Section Content.

Import Sample.

Implicit Types (db : Db) (c : Comment) (i : ObjectId) (s : jsstring).

Lemma trimStart_suffix s : ∃ p, s = p ++ trimStart s.
Proof.
  induction s as [|u s [p IH]]; [by exists []|]. cbn.
  destruct (isWhiteSpace u).
  - exists (u :: p). cbn. by f_equal.
  - by exists [].
Qed.

Lemma trimStart_head s u :
  head (trimStart s) = Some u → isWhiteSpace u = false.
Proof.
  induction s as [|w s IH]; [done|]. cbn.
  destruct (isWhiteSpace w) eqn:Hw; [exact IH|].
  cbn. by intros [= <-].
Qed.

Lemma trim_last s u : last (trim s) = Some u → isWhiteSpace u = false.
Proof. unfold trim. rewrite last_reverse. apply trimStart_head. Qed.

Lemma trim_head s u : head (trim s) = Some u → isWhiteSpace u = false.
Proof.
  unfold trim. intros Hu. apply (trimStart_head s).
  destruct (trimStart_suffix (reverse (trimStart s))) as [p Hp].
  apply (f_equal reverse) in Hp.
  rewrite reverse_involutive, reverse_app in Hp. rewrite Hp.
  destruct (reverse (trimStart (reverse (trimStart s)))); [done|exact Hu].
Qed.

Lemma castContent_Some raw text :
  castContent raw = Some text →
  ∃ s, raw = Some s ∧ text = trim s ∧ (1 ≤ length text ≤ 1000)%nat.
Proof.
  destruct raw as [s|]; [|done]. cbn. case_bool_decide; [|done].
  intros [= <-]. by exists s.
Qed.

Lemma castContent_content_ok raw text c :
  castContent raw = Some text → content c = text → content_ok c.
Proof.
  intros (s & _ & -> & Hlen)%castContent_Some Hc. unfold content_ok.
  rewrite Hc. split; [done|]. split; [apply trim_head | apply trim_last].
Qed.

(** A property of single documents that holds of new and of edited
    documents and survives a vote holds of every document after a step. *)
Lemma step_preserves_documents (P : Comment → Prop) :
  (∀ now newId raw text u b parent,
      castContent raw = Some text →
      P (mkComment newId text u b parent [] [] false now now)) →
  (∀ now raw text c,
      P c → castContent raw = Some text →
      P (set_updatedAt now
           (mkComment (_id c) text (author c) (blog c) (parentComment c)
                      (upvotes c) (downvotes c) true (createdAt c) now))) →
  (∀ now voteType u c, P c → P (set_updatedAt now (toggleVote voteType u c))) →
  ∀ db db', step db db' →
    (∀ i c, comments db !! i = Some c → P c) →
    ∀ i c, comments db' !! i = Some c → P c.
Proof.
  intros Hnew Hedit Hvote db db' Hstep Hall.
  assert (∀ now newId raw userId blogId parent c' db1,
            save_new now newId raw userId blogId parent db = Some (c', db1) →
            ∀ i c, comments db1 !! i = Some c → P c) as Hsave.
  { intros now newId raw userId blogId parent c' db1 Hs i c.
    apply save_new_Some in Hs as (text & b & Htext & _ & _ & -> & ->).
    cbn. rewrite lookup_insert. case_decide.
    - intros [= <-]. by eapply Hnew.
    - apply Hall. }
  assert (∀ now i0 raw u,
            ∀ i c, comments (updateComment now i0 raw u db).1 !! i = Some c →
                   P c) as Hupd.
  { intros now i0 raw u i c. unfold updateComment, Comment_findById.
    destruct (comments db !! i0) as [c0|] eqn:Hi0; [|apply Hall].
    destruct (_ && _); [apply Hall|].
    destruct (editComment raw now c0) as [c1|] eqn:He; [|apply Hall].
    apply editComment_Some in He as (text & Htext & ->). cbn [fst].
    rewrite lookup_save_existing. case_decide.
    - intros [= <-]. eapply Hedit; eauto.
    - apply Hall. }
  assert (∀ i0 u,
            ∀ i c, comments (deleteComment i0 u db).1 !! i = Some c → P c)
    as Hdel.
  { intros i0 u i c. unfold deleteComment, Comment_findById.
    destruct (comments db !! i0) as [c0|]; [|apply Hall].
    destruct (_ && _); [apply Hall|]. cbn [fst].
    intros (Hi & _)%lookup_delete_cascade. by eapply Hall. }
  assert (∀ now i0 voteType u,
            ∀ i c, comments (voteComment now i0 voteType u db).1 !! i = Some c
                   → P c) as Hvt.
  { intros now i0 voteType u i c. unfold voteComment, Comment_findById.
    destruct (negb _); [apply Hall|].
    destruct (comments db !! i0) as [c0|] eqn:Hi0; [|apply Hall]. cbn [fst].
    rewrite lookup_save_existing. case_decide.
    - intros [= <-]. eapply Hvote; eauto.
    - apply Hall. }
  destruct Hstep.
  - unfold createComment. repeat case_match; cbn [fst]; subst; eauto.
  - apply Hupd.
  - apply Hdel.
  - apply Hvt.
  - unfold on_new_comment. repeat case_match; cbn [fst]; subst; eauto.
  - rewrite on_update_comment_db. apply Hupd.
  - rewrite on_delete_comment_db. apply Hdel.
  - rewrite on_vote_comment_db. apply Hvt.
  - apply Hall.
Qed.

(** X7.  On every database the server can reach, the content of every stored
    comment is 1 to 1000 code units long and neither starts nor ends with
    white space: nothing untrimmed, empty or oversized gets past create or
    edit on either transport. *)
Theorem stored_content_is_trimmed_and_bounded db i c :
  reachable db → comments db !! i = Some c → content_ok c.
Proof.
  intros Hreach. revert i c.
  induction Hreach as [bs|db db' _ IH Hstep].
  - intros i c. cbn. by rewrite lookup_empty.
  - apply (step_preserves_documents content_ok) with db; try done.
    + intros. by eapply castContent_content_ok.
    + intros. by eapply castContent_content_ok.
    + intros now voteType u c [Hlen [Hh Hl]].
      unfold content_ok. cbn [content set_updatedAt].
      destruct (toggleVote_frame voteType u c) as (_ & -> & _). done.
Qed.

Lemma stored_content_is_trimmed_and_bounded_witness : content_ok hi.
Proof.
  apply (stored_content_is_trimmed_and_bounded db2 502 hi);
    [apply reachable_db2 | reflexivity].
Defined.

End Content.

(** ** More on votes *)

Section MoreVotes.

Import Sample.

Implicit Types (db : Db) (c : Comment) (i : ObjectId) (v : VoteType)
  (t : Transport).

Lemma handle_vote_db t now newId who sid i voteType db :
  (handle t now newId who sid (Vote i voteType) db).1
  = (voteComment now i voteType who db).1.
Proof. destruct t; [done|]. cbn [handle live]. apply on_vote_comment_db. Qed.

(** The [userVote] the controller computes from the memberships it read
    is the state the toggle leaves the voter in. *)
Lemma userVote_is_new_state v u c st :
  voteState c u = Some st →
  userVote (voteTypeName v) (bool_decide (u ∈ upvotes c))
           (bool_decide (u ∈ downvotes c))
  = state_name (transition v st).
Proof.
  unfold voteState.
  destruct (bool_decide (u ∈ upvotes c)), (bool_decide (u ∈ downvotes c)), v;
    intros; simplify_eq; reflexivity.
Qed.

(** X8.  What a vote reports is what it stored.  On every reachable database a
    vote moves the comment's score by the difference of the voter's new
    and old weight (one when a vote is placed or withdrawn, two when it is
    switched); the REST reply carries that new score and the voter's new
    state as [userVote], and the socket broadcast carries the same score
    with the two array lengths. *)
Theorem vote_reports_match_the_store db i c v now (who : User) (sid : string) :
  reachable db → comments db !! i = Some c →
  ∃ st c',
    voteState c (id who) = Some st
    ∧ comments (voteComment now i (voteTypeName v) who db).1 !! i = Some c'
    ∧ voteScore c'
      = voteScore c + vote_weight (transition v st) - vote_weight st
    ∧ (voteComment now i (voteTypeName v) who db).2
      = reply 200 true
          ("Comment "
           ++ (match v with Upvote => "upvoted" | Downvote => "downvoted" end)
           ++ " successfully")%string
          (VotePayload (voteScore c') (state_name (transition v st)))
    ∧ (on_vote_comment now i (voteTypeName v) (mkSocket sid who) db).2
      = ToRoom (blog c)
          (comment_voted i (voteScore c') (length (upvotes c'))
                         (length (downvotes c'))).
Proof.
  intros Hreach Hi.
  destruct (reachable_db_ok db Hreach i c Hi) as [Hid Hledger].
  destruct (ledger_ok_state c (id who) Hledger) as [st Hst].
  destruct (voteComment_accepted now i v who db c Hi Hid) as (Hc' & _ & _).
  exists st; eexists. split; [exact Hst|]. split; [exact Hc'|].
  rewrite voteScore_set_updatedAt. split; [by apply toggleVote_score|].
  destruct (toggleVote_frame (voteTypeName v) (id who) c)
    as (Hid' & _ & _ & Hblog & _).
  split.
  - unfold voteComment, Comment_findById.
    rewrite validVoteType_name, Hi. cbn [negb snd].
    rewrite (userVote_is_new_state v (id who) c st Hst).
    by destruct v.
  - unfold on_vote_comment, Comment_findById. cbn [user].
    rewrite validVoteType_name, Hi. cbn [negb snd].
    by rewrite Hblog, Hid', Hid.
Qed.

Lemma vote_reports_match_the_store_witness :
  ∃ st c',
    voteState hello_upvoted (id alice) = Some st
    ∧ comments (voteComment 1003 501 (voteTypeName Downvote) alice
                  db_upvoted).1 !! 501%N = Some c'
    ∧ voteScore c'
      = voteScore hello_upvoted + vote_weight (transition Downvote st)
        - vote_weight st
    ∧ (voteComment 1003 501 (voteTypeName Downvote) alice db_upvoted).2
      = reply 200 true "Comment downvoted successfully"
              (VotePayload (voteScore c')
                           (state_name (transition Downvote st)))
    ∧ (on_vote_comment 1003 501 (voteTypeName Downvote)
         (mkSocket "s-alice" alice) db_upvoted).2
      = ToRoom (blog hello_upvoted)
          (comment_voted 501 (voteScore c') (length (upvotes c'))
                         (length (downvotes c'))).
Proof.
  apply (vote_reports_match_the_store db_upvoted 501 hello_upvoted Downvote
           1003 alice "s-alice");
    [apply reachable_db_upvoted | reflexivity].
Defined.

(** X9.  A vote rewrites the two arrays and [updatedAt] of its comment and
    nothing else: the comment keeps its [_id], [content], [author],
    [blog], [parentComment], [isEdited] and [createdAt], every other
    comment is as before, and so is the set of blogs. *)
Theorem vote_touches_only_the_ledger t db i c v now newId (who : User)
    (sid : string) :
  reachable db → comments db !! i = Some c →
  let db' := (handle t now newId who sid (Vote i (voteTypeName v)) db).1 in
  ∃ c', comments db' !! i = Some c'
    ∧ (_id c' = _id c ∧ content c' = content c ∧ author c' = author c
       ∧ blog c' = blog c ∧ parentComment c' = parentComment c
       ∧ isEdited c' = isEdited c ∧ createdAt c' = createdAt c)
    ∧ updatedAt c' = now
    ∧ (∀ j, j ≠ i → comments db' !! j = comments db !! j)
    ∧ blogs db' = blogs db.
Proof.
  intros Hreach Hi db'. unfold db'. rewrite handle_vote_db.
  destruct (reachable_db_ok db Hreach i c Hi) as [Hid _].
  destruct (voteComment_accepted now i v who db c Hi Hid) as (Hc' & Hother & _).
  eexists. split; [exact Hc'|].
  destruct (toggleVote_frame (voteTypeName v) (id who) c)
    as (? & ? & ? & ? & ? & ? & ? & ?).
  split; [by repeat split|]. split; [done|]. split; [exact Hother|].
  unfold voteComment, Comment_findById. rewrite validVoteType_name, Hi. done.
Qed.

Lemma vote_touches_only_the_ledger_witness :
  ∃ c', comments (handle ViaSocket 1003 0 bob "s-bob"
                    (Vote 501 (voteTypeName Upvote)) db2).1 !! 501%N = Some c'
    ∧ (_id c' = _id hello ∧ content c' = content hello
       ∧ author c' = author hello ∧ blog c' = blog hello
       ∧ parentComment c' = parentComment hello
       ∧ isEdited c' = isEdited hello ∧ createdAt c' = createdAt hello)
    ∧ updatedAt c' = 1003%N
    ∧ (∀ j, j ≠ 501%N →
         comments (handle ViaSocket 1003 0 bob "s-bob"
                     (Vote 501 (voteTypeName Upvote)) db2).1 !! j
         = comments db2 !! j)
    ∧ blogs (handle ViaSocket 1003 0 bob "s-bob"
               (Vote 501 (voteTypeName Upvote)) db2).1 = blogs db2.
Proof.
  apply (vote_touches_only_the_ledger ViaSocket db2 501 hello Upvote 1003 0
           bob "s-bob"); [apply reachable_db2 | reflexivity].
Defined.

End MoreVotes.

(** ** Votes of different users *)

Section VoteOrder.

Import Sample.

Implicit Types (db : Db) (c : Comment) (i u w x : ObjectId) (v : VoteType).

Lemma toggleVote_set_updatedAt voteType u now c :
  toggleVote voteType u (set_updatedAt now c)
  = set_updatedAt now (toggleVote voteType u c).
Proof. unfold toggleVote. cbn. repeat case_match; reflexivity. Qed.

(** Where the voter stands after a toggle depends only on where the voter
    stood before. *)
Lemma toggleVote_self v u c :
  (u ∈ upvotes (toggleVote (voteTypeName v) u c)
   ↔ match v with
     | Upvote => u ∉ upvotes c
     | Downvote => u ∈ upvotes c ∧ u ∈ downvotes c
     end)
  ∧ (u ∈ downvotes (toggleVote (voteTypeName v) u c)
     ↔ match v with
       | Upvote => u ∈ upvotes c ∧ u ∈ downvotes c
       | Downvote => u ∉ downvotes c
       end).
Proof.
  destruct v; cbn [voteTypeName];
    [rewrite toggleVote_upvote | rewrite toggleVote_downvote];
    repeat case_bool_decide;
    cbn [upvotes downvotes set_upvotes set_downvotes];
    rewrite ?list_elem_of_filter, ?elem_of_app, ?list_elem_of_singleton;
    tauto.
Qed.

Lemma toggleVote_commute_mem v1 v2 u w c x :
  u ≠ w →
  (x ∈ upvotes (toggleVote (voteTypeName v2) w
                  (toggleVote (voteTypeName v1) u c))
   ↔ x ∈ upvotes (toggleVote (voteTypeName v1) u
                    (toggleVote (voteTypeName v2) w c)))
  ∧ (x ∈ downvotes (toggleVote (voteTypeName v2) w
                      (toggleVote (voteTypeName v1) u c))
     ↔ x ∈ downvotes (toggleVote (voteTypeName v1) u
                        (toggleVote (voteTypeName v2) w c))).
Proof.
  intros Huw.
  set (cu := toggleVote (voteTypeName v1) u c).
  set (cw := toggleVote (voteTypeName v2) w c).
  destruct (decide (x = u)) as [->|Hxu]; [|destruct (decide (x = w)) as [->|Hxw]].
  - destruct (toggleVote_others (voteTypeName v2) w u cu Huw) as [-> ->].
    destruct (toggleVote_self v1 u cw) as [-> ->].
    destruct (toggleVote_self v1 u c) as [Hup Hdn]. fold cu in Hup, Hdn.
    rewrite Hup, Hdn.
    destruct (toggleVote_others (voteTypeName v2) w u c Huw) as [Eu Ed].
    fold cw in Eu, Ed. destruct v1; rewrite ?Eu, ?Ed; tauto.
  - assert (w ≠ u) as Hwu by congruence.
    destruct (toggleVote_others (voteTypeName v1) u w cw Hwu) as [-> ->].
    destruct (toggleVote_self v2 w cu) as [-> ->].
    destruct (toggleVote_self v2 w c) as [Hup Hdn]. fold cw in Hup, Hdn.
    rewrite Hup, Hdn.
    destruct (toggleVote_others (voteTypeName v1) u w c Hwu) as [Eu Ed].
    fold cu in Eu, Ed. destruct v2; rewrite ?Eu, ?Ed; tauto.
  - destruct (toggleVote_others (voteTypeName v2) w x cu Hxw) as [-> ->].
    destruct (toggleVote_others (voteTypeName v1) u x cw Hxu) as [-> ->].
    subst cu cw.
    destruct (toggleVote_others (voteTypeName v1) u x c Hxu) as [-> ->].
    destruct (toggleVote_others (voteTypeName v2) w x c Hxw) as [-> ->].
    tauto.
Qed.

(** X10.  Votes of two different users on the same comment can be handled in
    either order: the two orders leave every user in the same state, the
    same sets of upvoters and downvoters, and the same score (only the
    order inside the arrays may differ). *)
Theorem votes_of_two_users_commute db i c v1 v2 now1 now2 (a b : User) :
  reachable db → comments db !! i = Some c → id a ≠ id b →
  let a_then_b :=
    (voteComment now2 i (voteTypeName v2) b
       (voteComment now1 i (voteTypeName v1) a db).1).1 in
  let b_then_a :=
    (voteComment now2 i (voteTypeName v1) a
       (voteComment now1 i (voteTypeName v2) b db).1).1 in
  ∃ c1 c2,
    comments a_then_b !! i = Some c1 ∧ comments b_then_a !! i = Some c2
    ∧ (∀ x, voteState c1 x = voteState c2 x)
    ∧ upvoters c1 = upvoters c2 ∧ downvoters c1 = downvoters c2
    ∧ voteScore c1 = voteScore c2.
Proof.
  intros Hreach Hi Hab a_then_b b_then_a.
  destruct (reachable_db_ok db Hreach i c Hi) as [Hid _].
  assert (∀ now1 now2 va vb (p q : User),
            reachable (voteComment now2 i (voteTypeName vb) q
                         (voteComment now1 i (voteTypeName va) p db).1).1
            ∧ comments (voteComment now2 i (voteTypeName vb) q
                          (voteComment now1 i (voteTypeName va) p db).1).1 !! i
              = Some (set_updatedAt now2
                        (toggleVote (voteTypeName vb) (id q)
                           (set_updatedAt now1
                              (toggleVote (voteTypeName va) (id p) c)))))
    as Htwo.
  { intros n1 n2 va vb p q. split.
    - eapply reachable_step; [eapply reachable_step; [exact Hreach|]|];
        apply step_voteComment.
    - destruct (voteComment_accepted n1 i va p db c Hi Hid) as (H1 & _ & _).
      eapply voteComment_accepted; [exact H1|]. cbn.
      transitivity (_id c); [apply toggleVote_frame | exact Hid]. }
  destruct (Htwo now1 now2 v1 v2 a b) as [Hr1 Hc1].
  destruct (Htwo now1 now2 v2 v1 b a) as [Hr2 Hc2].
  fold a_then_b in Hr1, Hc1. fold b_then_a in Hr2, Hc2.
  do 2 eexists. split; [exact Hc1|]. split; [exact Hc2|].
  destruct (reachable_db_ok _ Hr1 _ _ Hc1) as [_ (Hu1 & Hd1 & _)].
  destruct (reachable_db_ok _ Hr2 _ _ Hc2) as [_ (Hu2 & Hd2 & _)].
  revert Hu1 Hd1 Hu2 Hd2.
  rewrite !toggleVote_set_updatedAt. cbn [upvotes downvotes set_updatedAt].
  pose proof (λ x, toggleVote_commute_mem v1 v2 (id a) (id b) c x Hab) as Hmem.
  set (l1 := toggleVote (voteTypeName v2) (id b)
               (toggleVote (voteTypeName v1) (id a) c)) in *.
  set (l2 := toggleVote (voteTypeName v1) (id a)
               (toggleVote (voteTypeName v2) (id b) c)) in *.
  intros Hu1 Hd1 Hu2 Hd2.
  assert (upvotes l1 ≡ₚ upvotes l2) as Pu
    by (apply NoDup_Permutation; [done..|]; intros x; apply Hmem).
  assert (downvotes l1 ≡ₚ downvotes l2) as Pd
    by (apply NoDup_Permutation; [done..|]; intros x; apply Hmem).
  split; [|split; [|split]].
  - intros x. unfold voteState. cbn [upvotes downvotes set_updatedAt].
    destruct (Hmem x) as [Eu Ed].
    by rewrite (bool_decide_ext _ _ Eu), (bool_decide_ext _ _ Ed).
  - unfold upvoters. cbn [upvotes set_updatedAt]. by rewrite Pu.
  - unfold downvoters. cbn [downvotes set_updatedAt]. by rewrite Pd.
  - unfold voteScore. cbn [upvotes downvotes set_updatedAt].
    by rewrite Pu, Pd.
Qed.

Lemma votes_of_two_users_commute_witness :
  ∃ c1 c2,
    comments (voteComment 1004 501 (voteTypeName Downvote) bob
                (voteComment 1003 501 (voteTypeName Upvote) alice
                   db_upvoted).1).1 !! 501%N = Some c1
    ∧ comments (voteComment 1004 501 (voteTypeName Upvote) alice
                  (voteComment 1003 501 (voteTypeName Downvote) bob
                     db_upvoted).1).1 !! 501%N = Some c2
    ∧ (∀ x, voteState c1 x = voteState c2 x)
    ∧ upvoters c1 = upvoters c2 ∧ downvoters c1 = downvoters c2
    ∧ voteScore c1 = voteScore c2.
Proof.
  apply (votes_of_two_users_commute db_upvoted 501 hello_upvoted Upvote
           Downvote 1003 1004 alice bob);
    [apply reachable_db_upvoted | reflexivity | discriminate].
Defined.

End VoteOrder.

(** ** What a step can do to a stored comment *)

Section Steps.

Import Sample.

Implicit Types (db : Db) (c : Comment) (i j k : ObjectId) (t : Transport).

(** A document that is there before and after one handled request is
    unchanged, or edited, or voted on. *)
Lemma step_document_change db db' i c c' :
  db_ok db → step db db' →
  comments db !! i = Some c → comments db' !! i = Some c' →
  c' = c
  ∨ (∃ now text,
        c' = mkComment (_id c) text (author c) (blog c) (parentComment c)
                       (upvotes c) (downvotes c) true (createdAt c) now)
  ∨ (∃ now voteType u, c' = set_updatedAt now (toggleVote voteType u c)).
Proof.
  intros Hok Hstep Hi Hi'.
  assert (∀ now newId raw userId blogId parent c1 db1,
            save_new now newId raw userId blogId parent db = Some (c1, db1) →
            comments db1 !! i = Some c' → c' = c) as Hsave.
  { intros now newId raw userId blogId parent c1 db1 Hs.
    apply save_new_Some in Hs as (text & b & _ & _ & Hfresh & -> & ->).
    cbn. rewrite lookup_insert_ne; [intros; congruence|].
    intros ->. congruence. }
  assert (∀ now i0 raw u,
            comments (updateComment now i0 raw u db).1 !! i = Some c' →
            c' = c
            ∨ ∃ now text,
                c' = mkComment (_id c) text (author c) (blog c)
                       (parentComment c) (upvotes c) (downvotes c) true
                       (createdAt c) now) as Hupd.
  { intros now i0 raw u. unfold updateComment, Comment_findById.
    destruct (comments db !! i0) as [c0|] eqn:Hi0; [|cbn [fst]; intros; left; congruence].
    destruct (_ && _); [cbn [fst]; intros; left; congruence|].
    destruct (editComment raw now c0) as [c1|] eqn:He; [|cbn [fst]; intros; left; congruence].
    apply editComment_Some in He as (text & _ & ->). cbn [fst].
    rewrite lookup_save_existing. cbn [_id].
    destruct (Hok i0 c0 Hi0) as [Hid0 _]. rewrite Hid0.
    case_decide as Hk; [|intros; left; congruence].
    subst i0. intros [= <-]. right. exists now, text.
    assert (c0 = c) as -> by congruence. reflexivity. }
  assert (∀ i0 u, comments (deleteComment i0 u db).1 !! i = Some c' → c' = c)
    as Hdel.
  { intros i0 u. unfold deleteComment, Comment_findById.
    destruct (comments db !! i0) as [c0|]; [|cbn [fst]; intros; congruence].
    destruct (_ && _); [cbn [fst]; intros; congruence|]. cbn [fst].
    intros (Hj & _)%lookup_delete_cascade. congruence. }
  assert (∀ now i0 voteType u,
            comments (voteComment now i0 voteType u db).1 !! i = Some c' →
            c' = c
            ∨ ∃ now voteType u, c' = set_updatedAt now (toggleVote voteType u c))
    as Hvt.
  { intros now i0 voteType u. unfold voteComment, Comment_findById.
    destruct (negb _); [cbn [fst]; intros; left; congruence|].
    destruct (comments db !! i0) as [c0|] eqn:Hi0; [|cbn [fst]; intros; left; congruence].
    cbn [fst]. rewrite lookup_save_existing.
    destruct (toggleVote_frame voteType (id u) c0) as (Hid' & _).
    destruct (Hok i0 c0 Hi0) as [Hid0 _]. rewrite Hid', Hid0.
    case_decide as Hk; [|intros; left; congruence].
    subst i0. intros [= <-]. right.
    assert (c0 = c) as -> by congruence. eauto. }
  destruct Hstep.
  - left. revert Hi'. unfold createComment.
    repeat case_match; cbn [fst]; subst; eauto; congruence.
  - destruct (Hupd _ _ _ _ Hi'); eauto.
  - left. eauto.
  - destruct (Hvt _ _ _ _ Hi'); eauto.
  - left. revert Hi'. unfold on_new_comment.
    repeat case_match; cbn [fst]; subst; eauto; congruence.
  - rewrite on_update_comment_db in Hi'. destruct (Hupd _ _ _ _ Hi'); eauto.
  - rewrite on_delete_comment_db in Hi'. left. eauto.
  - rewrite on_vote_comment_db in Hi'. destruct (Hvt _ _ _ _ Hi'); eauto.
  - left. cbn in Hi'. congruence.
Qed.

(** X11.  No handled request, on either transport, reassigns a stored comment:
    as long as it stays in the collection it keeps its [_id], [author],
    [blog], [parentComment] and [createdAt]. *)
Theorem step_keeps_identity db db' i c c' :
  reachable db → step db db' →
  comments db !! i = Some c → comments db' !! i = Some c' →
  _id c' = _id c ∧ author c' = author c ∧ blog c' = blog c
  ∧ parentComment c' = parentComment c ∧ createdAt c' = createdAt c.
Proof.
  intros Hreach Hstep Hi Hi'.
  destruct (step_document_change db db' i c c' (reachable_db_ok db Hreach)
              Hstep Hi Hi')
    as [->|[(now & text & ->)|(now & voteType & u & ->)]]; [done..|].
  destruct (toggleVote_frame voteType u c) as (? & ? & ? & ? & ? & ? & ? & ?).
  done.
Qed.

Lemma step_keeps_identity_witness :
  _id hello_upvoted = _id hello ∧ author hello_upvoted = author hello
  ∧ blog hello_upvoted = blog hello
  ∧ parentComment hello_upvoted = parentComment hello
  ∧ createdAt hello_upvoted = createdAt hello.
Proof.
  apply (step_keeps_identity db1 db_upvoted 501 hello hello_upvoted);
    [apply reachable_db1 | apply step_voteComment | reflexivity | reflexivity].
Defined.

(** X12.  Content only changes through an edit, and an edit always raises
    [isEdited]; a raised [isEdited] is never lowered again.  So after any
    one request a comment whose content differs from before is marked as
    edited. *)
Theorem changed_content_is_marked_edited db db' i c c' :
  reachable db → step db db' →
  comments db !! i = Some c → comments db' !! i = Some c' →
  (content c' ≠ content c → isEdited c' = true)
  ∧ (isEdited c = true → isEdited c' = true).
Proof.
  intros Hreach Hstep Hi Hi'.
  destruct (step_document_change db db' i c c' (reachable_db_ok db Hreach)
              Hstep Hi Hi')
    as [->|[(now & text & ->)|(now & voteType & u & ->)]]; [done..|].
  destruct (toggleVote_frame voteType u c) as (_ & Hc & _ & _ & _ & He & _).
  cbn [content isEdited set_updatedAt]. rewrite Hc, He. done.
Qed.

Lemma changed_content_is_marked_edited_witness :
  let c' := mkComment 502 (code_units "Hi there") 2 article (Some 501%N)
                      [] [] true 1001 1010 in
  (content c' ≠ content hi → isEdited c' = true)
  ∧ (isEdited hi = true → isEdited c' = true).
Proof.
  apply (changed_content_is_marked_edited db2
           (updateComment 1010 502 (Some (code_units "Hi there")) bob db2).1
           502 hi);
    [apply reachable_db2 | apply step_updateComment | reflexivity
    | reflexivity].
Defined.

End Steps.

(** ** After a delete, and what a create adds *)

Section DeleteCreate.

Import Sample.

Implicit Types (db : Db) (c : Comment) (i j k : ObjectId) (t : Transport).

Lemma handle_delete_db t now newId who sid i db :
  (handle t now newId who sid (Delete i) db).1 = (deleteComment i who db).1.
Proof. destruct t; [done|]. cbn [handle live]. apply on_delete_comment_db. Qed.




(** X14.  The cascade stops after one level.  Deleting a comment removes its
    direct replies but not their replies: a reply to a reply of the
    deleted comment stays in the collection, with a [parentComment] that
    no longer exists. *)
Theorem cascade_stops_after_one_level t now newId (who : User) (sid : string)
    db i c k ck j cj :
  comments db !! i = Some c → may_modify who c →
  comments db !! k = Some ck → parentComment ck = Some i →
  comments db !! j = Some cj → parentComment cj = Some k →
  k ≠ i → j ≠ i →
  let db' := (handle t now newId who sid (Delete i) db).1 in
  comments db' !! k = None
  ∧ comments db' !! j = Some cj
  ∧ ∃ gone, parentComment cj = Some gone ∧ comments db' !! gone = None.
Proof.
  intros Hi Hmay Hk Hpk Hj Hpj Hki Hji db'.
  assert (∀ x d, comments db' !! x = Some d
                 ↔ comments db !! x = Some d ∧ x ≠ i
                   ∧ parentComment d ≠ Some i) as Hchar.
  { intros x d. unfold db'. rewrite handle_delete_db.
    rewrite (deleteComment_accepted i who db c Hi Hmay).
    apply lookup_delete_cascade. }
  assert (comments db' !! k = None) as Hkgone.
  { destruct (comments db' !! k) as [d|] eqn:Hd; [|done].
    apply Hchar in Hd as (Hd & _ & Hpd). congruence. }
  split; [exact Hkgone|]. split.
  - apply Hchar. repeat split; [done..|]. congruence.
  - by exists k.
Qed.

Lemma cascade_stops_after_one_level_witness :
  let db' := (handle ViaRest 1010 0 alice "s-alice" (Delete 501) db3).1 in
  let nested := mkComment 503 (code_units "nested") 1 article (Some 502%N)
                          [] [] false 1002 1002 in
  comments db' !! 502%N = None
  ∧ comments db' !! 503%N = Some nested
  ∧ ∃ gone, parentComment nested = Some gone ∧ comments db' !! gone = None.
Proof.
  apply (cascade_stops_after_one_level ViaRest 1010 0 alice "s-alice" db3
           501 hello 502 hi 503);
    [reflexivity | left; reflexivity | reflexivity | reflexivity
    | reflexivity | reflexivity | discriminate | discriminate].
Defined.

(** X15.  A create that succeeds, on either transport, adds exactly one document:
    it is stored under the new id with the requester as author, the
    trimmed content, the requested blog and parent, no votes and
    [isEdited] false; every comment that was there is as before. *)
Theorem create_adds_exactly_one t now newId (who : User) (sid : string)
    db raw blogId parent :
  outcome (handle t now newId who sid (Create raw blogId parent) db).2 = None →
  let db' := (handle t now newId who sid (Create raw blogId parent) db).1 in
  ∃ text b,
    castContent raw = Some text ∧ blogId = Some b
    ∧ comments db !! newId = None
    ∧ comments db'
      = <[newId := mkComment newId text (id who) b parent [] [] false now now]>
          (comments db)
    ∧ size (comments db') = S (size (comments db))
    ∧ blogs db' = blogs db.
Proof.
  intros Hout db'.
  assert (∃ c, save_new now newId raw (id who) blogId parent db
               = Some (c, db')) as [c Hsave].
  { revert Hout. unfold db'.
    destruct t; cbn [handle rest live];
      unfold createComment, on_new_comment; cbn [user];
      repeat case_match; cbn; try done; subst; eauto. }
  apply save_new_Some in Hsave as (text & b & Htext & Hb & Hfresh & -> & Hdb).
  exists text, b. rewrite Hdb. cbn.
  repeat split; try done. by apply map_size_insert_None.
Qed.

Lemma create_adds_exactly_one_witness :
  let db' := (handle ViaSocket 1002 503 alice "s-alice"
                (Create (Some (code_units " nested ")) (Some article)
                        (Some 502%N)) db2).1 in
  ∃ text b,
    castContent (Some (code_units " nested ")) = Some text
    ∧ Some article = Some b
    ∧ comments db2 !! 503%N = None
    ∧ comments db'
      = <[503%N := mkComment 503 text (id alice) b (Some 502%N) [] [] false
                             1002 1002]> (comments db2)
    ∧ size (comments db') = S (size (comments db2))
    ∧ blogs db' = blogs db2.
Proof.
  apply (create_adds_exactly_one ViaSocket 1002 503 alice "s-alice" db2
           (Some (code_units " nested ")) (Some article) (Some 502%N)).
  vm_compute. reflexivity.
Defined.

(** X16.  The REST controller stores no dangling reference: whenever it accepts
    a create, the blog post named in the request exists, and so does the
    parent comment if one is named. *)
Theorem rest_create_checks_references now newId (who : User) db raw blogId
    parent :
  outcome (createComment now newId raw blogId parent who db).2 = None →
  (∃ b, blogId = Some b ∧ b ∈ blogs db)
  ∧ ∀ p, parent = Some p → is_Some (comments db !! p).
Proof.
  unfold createComment, Blog_findById, Comment_findById.
  destruct blogId as [b|]; [|done].
  case_bool_decide as Hb; [|done].
  destruct parent as [p|].
  - destruct (comments db !! p) as [cp|] eqn:Hp; [|done].
    intros _. split; [by exists b|]. intros p' [= <-]. by eexists.
  - intros _. split; [by exists b|]. done.
Qed.

Lemma rest_create_checks_references_witness :
  (∃ b, Some article = Some b ∧ b ∈ blogs db1)
  ∧ ∀ p, Some 501%N = Some p → is_Some (comments db1 !! p).
Proof.
  apply (rest_create_checks_references 1001 502 bob db1
           (Some (code_units "Hi")) (Some article) (Some 501%N)).
  vm_compute. reflexivity.
Defined.

End DeleteCreate.

(** ** Rooms *)

Section Rooms.

Import Sample.

Implicit Types (db : Db) (q : Request) (rooms : gmap ObjectId (gset string))
  (s : Socket).

(** X17.  Room membership decides who hears a mutation made over the socket.
    For a request that succeeds and concerns blog post [b]: a connection
    that has joined [b]'s room receives the event that answers the
    request; a connection that has left it receives nothing, even when it
    is the sender itself; and joining the room of another blog post does
    not make a connection hear it. *)
Theorem room_membership_decides_delivery rooms db now newId (who : User)
    (sid : string) q b s :
  reachable db →
  outcome (live now newId (mkSocket sid who) q db).2 = None →
  content_item q db = Some b →
  let out := (live now newId (mkSocket sid who) q db).2 in
  (∃ e, answers q e
        ∧ delivered (join_blog b s rooms) (Some sid) out (socket_id s) = Some e)
  ∧ delivered (leave_blog b s rooms) (Some (socket_id s)) out (socket_id s)
    = None
  ∧ ∀ b', b' ≠ b → socket_id s ∉ default ∅ (rooms !! b) →
      delivered (join_blog b' s rooms) (Some sid) out (socket_id s) = None.
Proof.
  intros Hreach Hout Hb out.
  destruct (live_success_emits now newId (mkSocket sid who) q db
              (reachable_db_ok db Hreach) Hout)
    as (b0 & e & Hemit & Hb0 & He).
  assert (b0 = b) as -> by congruence.
  unfold out. rewrite Hemit. cbn [delivered]. split; [|split].
  - exists e. split; [done|].
    rewrite bool_decide_eq_true_2; [done|]. apply join_blog_member.
  - rewrite bool_decide_eq_false_2; [done|]. apply leave_blog_not_member.
  - intros b' Hb' Hout'. unfold join_blog.
    rewrite lookup_insert_ne by done.
    by rewrite bool_decide_eq_false_2.
Qed.

Lemma room_membership_decides_delivery_witness :
  let out := (live 1010 0 (mkSocket "s-alice" alice)
                (Vote 501 "upvote") db2).2 in
  (∃ e, answers (Vote 501 "upvote") e
        ∧ delivered (join_blog article bob_socket ∅) (Some "s-alice") out
                    (socket_id bob_socket) = Some e)
  ∧ delivered (leave_blog article bob_socket ∅) (Some (socket_id bob_socket))
              out (socket_id bob_socket) = None
  ∧ ∀ b', b' ≠ article → socket_id bob_socket
          ∉ default ∅ ((∅ : gmap ObjectId (gset string)) !! article) →
      delivered (join_blog b' bob_socket ∅) (Some "s-alice") out
                (socket_id bob_socket) = None.
Proof.
  apply (room_membership_decides_delivery ∅ db2 1010 0 alice "s-alice"
           (Vote 501 "upvote") article bob_socket);
    [apply reachable_db2 | vm_compute; reflexivity | reflexivity].
Defined.

End Rooms.

(** ** Authentication *)

Section Authentication.

Import Sample.

Implicit Types (verify : string → option User) (tk : string).

(** The first piece of a split has no space, and the string is that piece
    alone or that piece, a space, and the rest. *)
Lemma split_space_first (s : string) :
  ∃ w ws, split_space s = w :: ws ∧ spaceless w
          ∧ ((ws = [] ∧ s = w)
             ∨ ∃ s', s = (w ++ String " "%char s')%string ∧ ws = split_space s').
Proof.
  induction s as [|a s (w & ws & Hs & Hw & Hrest)].
  - exists "", []. repeat split; [by intros a []|by left].
  - cbn [split_space]. destruct (Ascii.eqb a " "%char) eqn:Ha.
    + apply Ascii.eqb_eq in Ha as ->. exists "", (split_space s).
      repeat split; [by intros a []|]. right. by exists s.
    + apply Ascii.eqb_neq in Ha. rewrite Hs. exists (String a w), ws.
      repeat split.
      * intros b [<-|Hb]; [done|by apply Hw].
      * destruct Hrest as [[-> ->]|(s' & -> & ->)]; [by left|].
        right. by exists s'.
Qed.

Lemma split_space_spaceless tk : spaceless tk → split_space tk = [tk].
Proof.
  induction tk as [|a tk IH]; intros Hs; [done|]. cbn [split_space].
  rewrite (proj2 (Ascii.eqb_neq a " "%char)) by (apply Hs; by left).
  rewrite IH; [done|]. intros b Hb. apply Hs. by right.
Qed.

Lemma prefix_split (p s : string) :
  String.prefix p s = true → ∃ rest, s = (p ++ rest)%string.
Proof.
  revert s. induction p as [|a p IH]; intros s; [by exists s|].
  destruct s as [|b s]; [done|]. cbn.
  destruct (Ascii.ascii_dec a b) as [->|]; [|done].
  intros [rest ->]%IH. by exists rest.
Qed.

Lemma append_empty (w : string) : (w ++ "")%string = w.
Proof.
  induction w as [|a w IH]; [done|].
  change (String a w ++ "")%string with (String a (w ++ "")%string).
  by rewrite IH.
Qed.

Lemma split_space_bearer (t : string) :
  split_space ("Bearer " ++ t) = "Bearer" :: split_space t.
Proof. reflexivity. Qed.

Lemma bearer_prefix (t : string) :
  String.prefix "Bearer " ("Bearer " ++ t) = true.
Proof. apply String.prefix_correct. destruct t; reflexivity. Qed.

Lemma bearer_nonempty (t : string) : String.eqb ("Bearer " ++ t) "" = false.
Proof. reflexivity. Qed.

(** X18.  The token the page stores reaches both transports as the same
    identity.  For a non-empty token without a space, the header the
    page's HTTP client builds is parsed back by [authenticate] to exactly
    that token, and the socket middleware hands the same token to the same
    verifier: a request is let in over REST as user [u] exactly when a
    connection is accepted over the socket as user [u]. *)
Theorem bearer_token_round_trip verify tk :
  tk ≠ "" → spaceless tk →
  authenticate verify (authorization_header (Some tk))
  = match verify tk with
    | Some u => inr u
    | None =>
        inl (mkResponse 401 false "Invalid token. Authentication failed."
                        NoPayload)
    end
  ∧ socket_authenticate verify (Some tk) = verify tk
  ∧ ∀ u, authenticate verify (authorization_header (Some tk)) = inr u
         ↔ socket_authenticate verify (Some tk) = Some u.
Proof.
  intros Hne Hsp. apply String.eqb_neq in Hne as Hne'.
  assert (authenticate verify (authorization_header (Some tk))
          = match verify tk with
            | Some u => inr u
            | None =>
                inl (mkResponse 401 false
                       "Invalid token. Authentication failed." NoPayload)
            end) as Hrest.
  { unfold authorization_header. rewrite Hne'.
    unfold authenticate.
    rewrite bearer_nonempty, bearer_prefix, split_space_bearer.
    rewrite (split_space_spaceless tk Hsp), Hne'. reflexivity. }
  assert (socket_authenticate verify (Some tk) = verify tk) as Hsock
    by (cbn; by rewrite Hne').
  split; [exact Hrest|]. split; [exact Hsock|].
  intros u. rewrite Hrest, Hsock. destruct (verify tk); split; congruence.
Qed.

Lemma bearer_token_round_trip_witness :
  let verify := fun tk => if String.eqb tk "tok.en-1" then Some alice else None in
  authenticate verify (authorization_header (Some "tok.en-1")) = inr alice
  ∧ socket_authenticate verify (Some "tok.en-1") = Some alice
  ∧ ∀ u, authenticate verify (authorization_header (Some "tok.en-1")) = inr u
         ↔ socket_authenticate verify (Some "tok.en-1") = Some u.
Proof.
  apply (bearer_token_round_trip
           (fun tk => if String.eqb tk "tok.en-1" then Some alice else None)
           "tok.en-1"); [discriminate|].
  intros a Ha. cbn in Ha.
  repeat (destruct Ha as [<-|Ha]; [discriminate|]). destruct Ha.
Defined.

(** X19.  [authenticate] lets nobody in on its own word.  If it calls [next()]
    with user [u], the header was "Bearer ", then a non-empty token without
    a space, then nothing or a space and further text (which is ignored),
    and [u] is what the verifier decoded from that token. *)
Theorem authenticate_sound verify authorization u :
  authenticate verify authorization = inr u →
  ∃ tk rest,
    authorization = Some ("Bearer " ++ tk ++ rest)%string
    ∧ tk ≠ "" ∧ spaceless tk
    ∧ (rest = "" ∨ ∃ more, rest = String " "%char more)
    ∧ verify tk = Some u.
Proof.
  unfold authenticate. destruct authorization as [h|]; [|done].
  destruct (String.eqb h ""); [done|]. cbn [orb].
  destruct (String.prefix "Bearer " h) eqn:Hp; [|done]. cbn [negb].
  apply prefix_split in Hp as [t ->]. rewrite split_space_bearer.
  destruct (split_space_first t) as (w & ws & Hs & Hw & Hrest).
  rewrite Hs.
  destruct (String.eqb w "") eqn:Hne; [done|]. apply String.eqb_neq in Hne.
  destruct (verify w) as [u'|] eqn:Hv; [|done]. intros [= ->].
  destruct Hrest as [[-> ->]|(s' & -> & _)].
  - exists w, "". repeat split; try done; [|by left].
    by rewrite append_empty.
  - exists w, (String " "%char s'). repeat split; try done. right. by exists s'.
Qed.

Lemma authenticate_sound_witness :
  let verify := fun tk => if String.eqb tk "abc" then Some bob else None in
  ∃ tk rest,
    Some "Bearer abc trailing" = Some ("Bearer " ++ tk ++ rest)%string
    ∧ tk ≠ "" ∧ spaceless tk
    ∧ (rest = "" ∨ ∃ more, rest = String " "%char more)
    ∧ verify tk = Some bob.
Proof.
  apply (authenticate_sound
           (fun tk => if String.eqb tk "abc" then Some bob else None)
           (Some "Bearer abc trailing") bob).
  vm_compute. reflexivity.
Defined.

End Authentication.

(** ** The page's other listeners *)

Section Listeners.

Import CommentSection.

Implicit Types (comment c r : CommentType) (prev rs : list CommentType)
  (i : string).

Lemma with_replies_same c rs : replies c = Some rs → with_replies rs c = c.
Proof. destruct c. cbn. by intros ->. Qed.

Lemma map_fixed {A} (f : A → A) (l : list A) :
  (∀ x, x ∈ l → f x = x) → map f l = l.
Proof.
  induction l as [|x l IH]; intros Hf; [done|]. cbn.
  rewrite Hf by (by left). f_equal. apply IH. intros y Hy. apply Hf. by right.
Qed.

Lemma existsb_id_false i rs :
  (∀ r, r ∈ rs → _id r ≠ i) →
  existsb (fun r => bool_decide (_id r = i)) rs = false.
Proof.
  induction rs as [|r rs IH]; intros Hno; [done|]. cbn.
  rewrite bool_decide_eq_false_2 by (apply Hno; by left).
  apply IH. intros r' Hr'. apply Hno. by right.
Qed.

Lemma existsb_id_true i rs :
  existsb (fun r => bool_decide (_id r = i)) rs = true →
  ∃ r, r ∈ rs ∧ _id r = i.
Proof.
  induction rs as [|r rs IH]; [done|]. cbn.
  case_bool_decide as Hr.
  - intros _. exists r. split; [by left|done].
  - intros (r' & Hr' & Hi)%IH. exists r'. split; [by right|done].
Qed.

Lemma filter_other_ids i rs :
  (∀ r, r ∈ rs → _id r ≠ i) → filter (fun r => _id r ≠ i) rs = rs.
Proof.
  induction rs as [|r rs IH]; intros Hno; [done|].
  rewrite filter_cons_True by (apply Hno; by left).
  f_equal. apply IH. intros r' Hr'. apply Hno. by right.
Qed.

(** X20.  Of two [comment-voted] events for the same comment the later one
    wins, whatever the earlier one said; in particular a duplicate of an
    event changes nothing. *)
Theorem voted_event_last_wins i (s1 s2 : Z) prev :
  on_comment_voted i s2 (on_comment_voted i s1 prev)
  = on_comment_voted i s2 prev.
Proof.
  unfold on_comment_voted. rewrite map_map. apply map_ext. intros c.
  destruct (decide (_id c = i)) as [Hc|Hc].
  - rewrite !(bool_decide_eq_true_2 (_id c = i)) by done. reflexivity.
  - rewrite !(bool_decide_eq_false_2 (_id c = i)) by done.
    destruct (replies c) as [rs|] eqn:Hrs.
    + cbn [_id with_replies replies].
      rewrite ?(bool_decide_eq_false_2 (_id c = i)) by done.
      unfold with_replies. cbn. f_equal. f_equal.
      rewrite map_map. apply map_ext. intros r.
      destruct (decide (_id r = i)) as [Hr|Hr].
      * rewrite !(bool_decide_eq_true_2 (_id r = i)) by done. reflexivity.
      * by rewrite !(bool_decide_eq_false_2 (_id r = i)) by done.
    + rewrite ?(bool_decide_eq_false_2 (_id c = i)) by done. by rewrite Hrs.
Qed.

(** X21.  A [comment-voted] event touches scores only: with the scores blanked
    the page is the same before and after (same comments, same order,
    same replies under each); and when the id is nowhere on the page the
    page is left exactly as it was. *)
Theorem voted_event_changes_scores_only i (s : Z) prev :
  map forget_scores (on_comment_voted i s prev) = map forget_scores prev
  ∧ (¬ shown_at_top i prev → ¬ shown_as_reply i prev →
     on_comment_voted i s prev = prev).
Proof.
  split.
  - unfold on_comment_voted. rewrite map_map. apply map_ext. intros c.
    case_bool_decide as Hc; [reflexivity|].
    destruct (replies c) as [rs|] eqn:Hrs; [|reflexivity].
    unfold forget_scores. cbn. rewrite Hrs. cbn. f_equal. f_equal.
    rewrite <- list_fmap_compose. apply list_fmap_ext. intros k r _. cbn.
    by case_bool_decide.
  - intros Htop Hreply. apply map_fixed. intros c Hc.
    rewrite bool_decide_eq_false_2
      by (intros Hi; apply Htop; by exists c).
    destruct (replies c) as [rs|] eqn:Hrs; [|reflexivity].
    rewrite map_fixed; [by apply with_replies_same|].
    intros r Hr. rewrite bool_decide_eq_false_2; [done|].
    intros Hi. apply Hreply. by exists c, rs, r.
Qed.

Lemma voted_event_changes_scores_only_witness :
  map forget_scores (on_comment_voted "c2" 5 PageSample.page)
  = map forget_scores PageSample.page
  ∧ on_comment_voted "c7" 5 PageSample.page = PageSample.page.
Proof.
  destruct (voted_event_changes_scores_only "c2" 5 PageSample.page)
    as [Hsame _].
  destruct (voted_event_changes_scores_only "c7" 5 PageSample.page)
    as [_ Hnone].
  split; [exact Hsame|]. apply Hnone.
  - intros (c & Hc & Hi). unfold PageSample.page in Hc.
    apply elem_of_cons in Hc as [->|Hc]; [discriminate|].
    apply list_elem_of_singleton in Hc as ->. discriminate.
  - intros (c & rs & r & Hc & Hrs & Hr & Hi). unfold PageSample.page in Hc.
    apply elem_of_cons in Hc as [->|Hc].
    + cbn in Hrs. injection Hrs as <-.
      apply list_elem_of_singleton in Hr as ->. discriminate.
    + apply list_elem_of_singleton in Hc as ->. discriminate.
Defined.

End Listeners.

Section DeletedAndUpdated.

Import CommentSection.

Implicit Types (comment c r : CommentType) (prev rs : list CommentType)
  (i : string).

Lemma existsb_top_true i prev :
  existsb (fun c => bool_decide (_id c = i)) prev = true ↔ shown_at_top i prev.
Proof.
  split.
  - intros (c & Hc & Hi)%existsb_id_true. by exists c.
  - intros (c & Hc & Hi).
    destruct (existsb _ prev) eqn:He; [done|]. exfalso.
    revert He. induction prev as [|d prev IH]; [by apply elem_of_nil in Hc|].
    cbn. apply elem_of_cons in Hc as [->|Hc].
    + by rewrite bool_decide_eq_true_2.
    + case_bool_decide; [done|]. by apply IH.
Qed.

Lemma existsb_id_false_inv i rs :
  existsb (fun r => bool_decide (_id r = i)) rs = false →
  ∀ r, r ∈ rs → _id r ≠ i.
Proof.
  induction rs as [|d rs IH]; intros He r Hr; [by apply elem_of_nil in Hr|].
  cbn in He. apply orb_false_iff in He as [Hd He].
  apply bool_decide_eq_false_1 in Hd.
  apply elem_of_cons in Hr as [->|Hr]; [done|by apply IH].
Qed.

Lemma filter_other_ids_gen i (l : list string) :
  (∀ j, In j l → j ≠ i) → filter (fun j => j ≠ i) l = l.
Proof.
  induction l as [|j l IH]; intros Hno; [done|].
  rewrite filter_cons_True by (apply Hno; by left).
  f_equal. apply IH. intros j' Hj'. apply Hno. by right.
Qed.

(** What the deleted-listener does to one top-level entry when the id is
    not at top level. *)
Lemma deleted_entry_id i c :
  _id (match replies c with
       | Some rs =>
           if existsb (fun r => bool_decide (_id r = i)) rs
           then with_replies (filter (fun r => _id r ≠ i) rs) c
           else c
       | None => c
       end) = _id c.
Proof. destruct (replies c); [|done]. by destruct (existsb _ _). Qed.

(** X22.  After a [comment-deleted] event the top level of the page is what it
    was without the entries of that id, in the same order; if the id was
    not at top level, no reply of that id is left under any comment; and
    if the id was nowhere on the page, the page is left exactly as it
    was. *)
Theorem deleted_event_removes_comment i prev :
  map _id (on_comment_deleted i prev)
  = filter (fun j => j ≠ i) (map _id prev)
  ∧ (¬ shown_at_top i prev → ¬ shown_as_reply i (on_comment_deleted i prev))
  ∧ (¬ shown_at_top i prev → ¬ shown_as_reply i prev →
     on_comment_deleted i prev = prev).
Proof.
  unfold on_comment_deleted.
  destruct (existsb (fun c => bool_decide (_id c = i)) prev) eqn:Htop.
  - split; [|split].
    + clear Htop. induction prev as [|c prev IH]; [done|]. cbn [map].
      destruct (decide (_id c ≠ i)).
      * rewrite !filter_cons_True by done. cbn [map]. by f_equal.
      * by rewrite !filter_cons_False by done.
    + intros Hno. destruct Hno. by apply existsb_top_true.
    + intros Hno. destruct Hno. by apply existsb_top_true.
  - assert (¬ shown_at_top i prev) as Hnot.
    { intros H%existsb_top_true. congruence. }
    split; [|split].
    + rewrite map_map. rewrite (map_ext _ _id) by apply deleted_entry_id.
      symmetry. apply filter_other_ids_gen.
      intros j (c & <- & Hc%list_elem_of_In)%in_map_iff Hi.
      apply Hnot. by exists c.
    + intros _ (c' & rs' & r & Hc' & Hrs' & Hr & Hi).
      apply list_elem_of_In, in_map_iff in Hc' as (c & <- & Hc).
      destruct (replies c) as [rs|] eqn:Hrs; [|congruence].
      destruct (existsb (fun r => bool_decide (_id r = i)) rs) eqn:He.
      * cbn in Hrs'. injection Hrs' as <-.
        apply list_elem_of_filter in Hr as [Hne _]. done.
      * assert (rs' = rs) as -> by congruence.
        apply (existsb_id_false_inv i rs He r Hr Hi).
    + intros _ Hreply. apply map_fixed. intros c Hc.
      destruct (replies c) as [rs|] eqn:Hrs; [|done].
      rewrite existsb_id_false; [done|].
      intros r Hr Hi. apply Hreply. by exists c, rs, r.
Qed.

End DeletedAndUpdated.

Section ListenersOnThePage.

Import CommentSection.

Implicit Types (comment c r : CommentType) (prev rs : list CommentType)
  (i : string).

Lemma page_top_ids i :
  shown_at_top i PageSample.page → i = "c1" ∨ i = "c3".
Proof.
  intros (c & Hc & <-). unfold PageSample.page in Hc.
  apply elem_of_cons in Hc as [->|Hc]; [by left|].
  apply list_elem_of_singleton in Hc as ->. by right.
Qed.

Lemma page_reply_ids i : shown_as_reply i PageSample.page → i = "c2".
Proof.
  intros (c & rs & r & Hc & Hrs & Hr & <-). unfold PageSample.page in Hc.
  apply elem_of_cons in Hc as [->|Hc].
  - cbn in Hrs. injection Hrs as <-.
    by apply list_elem_of_singleton in Hr as ->.
  - apply list_elem_of_singleton in Hc as ->. discriminate.
Qed.

Lemma deleted_event_removes_comment_witness :
  map _id (on_comment_deleted "c2" PageSample.page)
  = filter (fun j => j ≠ "c2") (map _id PageSample.page)
  ∧ ¬ shown_as_reply "c2" (on_comment_deleted "c2" PageSample.page)
  ∧ on_comment_deleted "c7" PageSample.page = PageSample.page.
Proof.
  destruct (deleted_event_removes_comment "c2" PageSample.page)
    as (Hids & Hreply & _).
  destruct (deleted_event_removes_comment "c7" PageSample.page)
    as (_ & _ & Hnone).
  split; [exact Hids|]. split.
  - apply Hreply. intros [?|?]%page_top_ids; discriminate.
  - apply Hnone.
    + intros [?|?]%page_top_ids; discriminate.
    + intros ?%page_reply_ids. discriminate.
Defined.

(** X23.  A comment that appears and is then deleted leaves no trace.  If its
    id was not on the page, a [comment-created] event followed by the
    [comment-deleted] event for the same id gives back the page as it
    was: for a top-level comment always, and for a reply provided the
    comments it was attached to already had a replies list. *)
Theorem created_then_deleted_round_trip comment prev :
  ¬ shown_at_top (_id comment) prev →
  on_comment_deleted (_id comment) (on_comment_created comment None prev)
  = prev
  ∧ ∀ p, p ≠ "" → ¬ shown_as_reply (_id comment) prev →
      (∀ c, c ∈ prev → _id c = p → replies c ≠ None) →
      on_comment_deleted (_id comment)
        (on_comment_created comment (Some p) prev)
      = prev.
Proof.
  intros Htop.
  assert (∀ c, c ∈ prev → _id c ≠ _id comment) as Hids.
  { intros c Hc Hi. apply Htop. by exists c. }
  split.
  - unfold on_comment_created, on_comment_deleted. cbn [truthy negb existsb].
    rewrite bool_decide_eq_true_2 by done. cbn [orb].
    rewrite filter_cons_False by (intros H; by apply H).
    by apply filter_other_ids.
  - intros p Hp Hreply Hlists.
    unfold on_comment_created. rewrite (truthy_Some p Hp). cbn [negb].
    unfold on_comment_deleted.
    rewrite existsb_id_false.
    2:{ intros c' (c & <- & Hc%list_elem_of_In)%list_elem_of_In%in_map_iff.
        case_bool_decide; [|by apply Hids]. cbn. by apply Hids. }
    rewrite map_map. apply map_fixed. intros c Hc.
    case_bool_decide as Hm.
    + destruct (replies c) as [rs|] eqn:Hrs.
      2:{ destruct (Hlists c Hc); congruence. }
      unfold add_reply. rewrite Hrs. cbn [default with_replies replies].
      change (Datatypes.id rs) with rs.
      assert (∀ r, r ∈ rs → _id r ≠ _id comment) as Hrs'.
      { intros r Hr Hi. apply Hreply. by exists c, rs, r. }
      assert (existsb (fun r => bool_decide (_id r = _id comment))
                      (rs ++ [comment]) = true) as ->.
      { rewrite existsb_app. cbn. rewrite bool_decide_eq_true_2 by done.
        by rewrite orb_true_r. }
      rewrite filter_app, (filter_other_ids _ rs Hrs').
      rewrite filter_cons_False by (intros H; by apply H).
      rewrite filter_nil, app_nil_r.
      transitivity (with_replies rs c); [by destruct c|].
      by apply with_replies_same.
    + destruct (replies c) as [rs|] eqn:Hrs; [|done].
      rewrite existsb_id_false; [done|].
      intros r Hr Hi. apply Hreply. by exists c, rs, r.
Qed.

Lemma created_then_deleted_round_trip_witness :
  on_comment_deleted (_id PageSample.incoming)
    (on_comment_created PageSample.incoming None PageSample.page)
  = PageSample.page
  ∧ on_comment_deleted (_id PageSample.incoming)
      (on_comment_created PageSample.incoming (Some "c1") PageSample.page)
    = PageSample.page.
Proof.
  destruct (created_then_deleted_round_trip PageSample.incoming
              PageSample.page) as [Htop Hreply].
  - intros [?|?]%page_top_ids; discriminate.
  - split; [exact Htop|]. apply Hreply.
    + discriminate.
    + intros ?%page_reply_ids. discriminate.
    + intros c Hc Hi. unfold PageSample.page in Hc.
      apply elem_of_cons in Hc as [->|Hc]; [discriminate|].
      apply list_elem_of_singleton in Hc as ->. discriminate.
Defined.

End ListenersOnThePage.

Section UpdatedListener.

Import CommentSection.

Implicit Types (comment c r : CommentType) (prev rs : list CommentType)
  (i : string).

Lemma updated_entry_id comment c :
  _id (if bool_decide (_id c = _id comment) then spread c comment
       else
         match replies c with
         | Some rs =>
             with_replies
               (map (fun r =>
                       if bool_decide (_id r = _id comment)
                       then spread r comment else r) rs) c
         | None => c
         end) = _id c.
Proof.
  case_bool_decide as Hc; [by cbn|]. by destruct (replies c).
Qed.

(** X24.  A [comment-updated] event keeps the page's shape: the same top-level
    ids in the same order.  A top-level comment with the event's id shows
    the event's content, edit mark, time and score, and keeps the replies
    shown under it when the event carries no replies of its own.  When the
    id is nowhere on the page, the page is left exactly as it was. *)
Theorem updated_event_merges_in_place comment prev :
  map _id (on_comment_updated comment prev) = map _id prev
  ∧ (∀ k c, prev !! k = Some c → _id c = _id comment →
       ∃ c', on_comment_updated comment prev !! k = Some c'
             ∧ content c' = content comment
             ∧ isEdited c' = isEdited comment
             ∧ updatedAt c' = updatedAt comment
             ∧ voteScore c' = voteScore comment
             ∧ (replies comment = None → replies c' = replies c))
  ∧ (¬ shown_at_top (_id comment) prev →
     ¬ shown_as_reply (_id comment) prev →
     on_comment_updated comment prev = prev).
Proof.
  split; [|split].
  - unfold on_comment_updated. rewrite map_map.
    apply map_ext. intros c. apply updated_entry_id.
  - intros k c Hk Hc. unfold on_comment_updated.
    revert k Hk. induction prev as [|d prev IH]; intros k Hk; [done|].
    destruct k as [|k]; cbn in Hk |- *.
    + simplify_eq. rewrite bool_decide_eq_true_2 by done.
      eexists. split; [reflexivity|]. cbn. repeat split.
      by intros ->.
    + by apply IH.
  - intros Htop Hreply. apply map_fixed. intros c Hc.
    rewrite bool_decide_eq_false_2
      by (intros Hi; apply Htop; by exists c).
    destruct (replies c) as [rs|] eqn:Hrs; [|reflexivity].
    rewrite map_fixed; [by apply with_replies_same|].
    intros r Hr. rewrite bool_decide_eq_false_2; [done|].
    intros Hi. apply Hreply. by exists c, rs, r.
Qed.

Lemma updated_event_merges_in_place_witness :
  let edited :=
    PageSample.shown "c1" "Hello (edited)" None None in
  map _id (on_comment_updated edited PageSample.page)
  = map _id PageSample.page
  ∧ (∃ c', on_comment_updated edited PageSample.page !! 0%nat = Some c'
           ∧ content c' = "Hello (edited)"
           ∧ isEdited c' = isEdited edited
           ∧ updatedAt c' = updatedAt edited
           ∧ voteScore c' = voteScore edited
           ∧ replies c' = Some [PageSample.first_reply])
  ∧ on_comment_updated (PageSample.shown "c7" "x" None None) PageSample.page
    = PageSample.page.
Proof.
  intros edited.
  destruct (updated_event_merges_in_place edited PageSample.page)
    as (Hids & Hat & _).
  destruct (updated_event_merges_in_place
              (PageSample.shown "c7" "x" None None) PageSample.page)
    as (_ & _ & Hnone).
  split; [exact Hids|]. split.
  - destruct (Hat 0%nat PageSample.first eq_refl eq_refl)
      as (c' & Hc' & H1 & H2 & H3 & H4 & H5).
    exists c'. repeat split; try done. by rewrite H5.
  - apply Hnone.
    + intros [?|?]%page_top_ids; discriminate.
    + intros ?%page_reply_ids. discriminate.
Defined.

End UpdatedListener.

(** * The read controllers *)

Section Listings.

Import Sample.

Implicit Types (db : Db) (c d : Comment) (i j k : ObjectId)
  (page limit : positive).

Lemma elem_of_documents (m : gmap ObjectId Comment) c :
  c ∈ (map_to_list m).*2 ↔ ∃ k, m !! k = Some c.
Proof.
  rewrite list_elem_of_fmap. split.
  - intros ([k c'] & -> & Hk%elem_of_map_to_list). by exists k.
  - intros [k Hk]. exists (k, c). split; [done|]. by apply elem_of_map_to_list.
Qed.

Lemma elem_of_paginate {A} page limit (l : list A) x :
  x ∈ paginate page limit l → x ∈ l.
Proof.
  unfold paginate. intros Hx.
  eapply elem_of_sublist; [|apply sublist_drop].
  eapply elem_of_sublist; [exact Hx|apply sublist_take].
Qed.

Lemma length_paginate {A} page limit (l : list A) :
  (length (paginate page limit l) ≤ Pos.to_nat limit)%nat.
Proof. unfold paginate. rewrite length_take. lia. Qed.

(** Chopping a list into [n] pieces of [L] gives the list back when [n]
    pieces are enough. *)
Lemma concat_pieces {A} (L n : nat) (l : list A) :
  (0 < L)%nat → (length l ≤ n * L)%nat →
  concat (map (fun p => take L (drop (p * L) l)) (seq 0 n)) = l.
Proof.
  intros HL. revert l. induction n as [|n IH]; intros l Hlen.
  - destruct l; [done|]. cbn in Hlen. lia.
  - rewrite <- cons_seq, <- seq_shift, map_cons, map_map. cbn [concat].
    rewrite Nat.mul_0_l, drop_0.
    rewrite (map_ext _ (fun p => take L (drop (p * L) (drop L l)))).
    2:{ intros p. rewrite drop_drop. reflexivity. }
    rewrite IH by (rewrite length_drop; lia).
    apply take_drop.
Qed.

Lemma pages_needed_enough total limit :
  (total ≤ pages_needed total limit * Pos.to_nat limit)%nat.
Proof.
  unfold pages_needed. set (L := Pos.to_nat limit).
  assert (0 < L)%nat by (unfold L; lia).
  pose proof (Nat.div_mod_eq (total + (L - 1)) L).
  pose proof (Nat.mod_upper_bound (total + (L - 1)) L). nia.
Qed.

(** The items of a listing, nothing for an error reply. *)
Lemma getReplies_found oldest_first i page limit db c0 :
  comments db !! i = Some c0 →
  getReplies oldest_first i page limit db
  = inr (mkListing
           (length (paginate page limit
                      (oldest_first (map_to_list (direct_replies i db)).*2)))
           (length (map_to_list (direct_replies i db)).*2)
           (pages_needed (length (map_to_list (direct_replies i db)).*2) limit)
           page
           (paginate page limit
              (oldest_first (map_to_list (direct_replies i db)).*2))).
Proof. intros Hi. unfold getReplies, Comment_findById. by rewrite Hi. Qed.

(** X25.  [getReplies] answers "not found" for a comment that is not stored.
    For a stored comment every document on a page is a stored comment
    whose [parentComment] is the requested id, a page holds at most
    [limit] of them, [count] is their number and [totalCount] is the
    number of direct replies in the collection. *)
Theorem getReplies_lists_direct_replies oldest_first i page limit db :
  rearranges oldest_first →
  (comments db !! i = None →
   getReplies oldest_first i page limit db
   = inl (mkResponse 404 false "Comment not found" NoPayload))
  ∧ (is_Some (comments db !! i) →
     ∃ L, getReplies oldest_first i page limit db = inr L
          ∧ (∀ c, c ∈ items L →
               parentComment c = Some i ∧ ∃ k, comments db !! k = Some c)
          ∧ count L = length (items L)
          ∧ (count L ≤ Pos.to_nat limit)%nat
          ∧ totalCount L = size (direct_replies i db)
          ∧ currentPage L = page).
Proof.
  intros Hsort. split.
  - intros Hi. unfold getReplies, Comment_findById. by rewrite Hi.
  - intros [c0 Hi]. eexists. split; [by eapply getReplies_found|].
    cbn [items count totalCount currentPage]. split; [|split; [|split]].
    + intros c Hc%elem_of_paginate. rewrite (Hsort _) in Hc.
      apply elem_of_documents in Hc as [k Hk].
      apply map_lookup_filter_Some in Hk as [Hk Hp]. split; [done|].
      by exists k.
    + done.
    + apply length_paginate.
    + split; [|done]. by rewrite length_fmap, length_map_to_list.
Qed.

Lemma getReplies_lists_direct_replies_witness :
  ∃ L, getReplies by_createdAt 501 1 10 db3 = inr L
       ∧ (∀ c, c ∈ items L →
            parentComment c = Some 501%N ∧ ∃ k, comments db3 !! k = Some c)
       ∧ count L = length (items L)
       ∧ (count L ≤ Pos.to_nat 10)%nat
       ∧ totalCount L = size (direct_replies 501 db3)
       ∧ currentPage L = 1%positive.
Proof.
  refine (proj2 (getReplies_lists_direct_replies by_createdAt 501 1 10 db3 _)
                _).
  - intros l. apply merge_sort_Permutation.
  - by eexists.
Defined.

(** X26.  Paging through the replies misses nothing and repeats nothing.  With a
    fixed [limit] and an unchanged collection, the pages 1 to [totalPages]
    of [getReplies], one after the other, are the sorted list of all
    direct replies, so together they hold each direct reply exactly as
    often as the collection does; every later page is empty. *)
Theorem getReplies_pages_cover_all_replies oldest_first i limit db :
  rearranges oldest_first → is_Some (comments db !! i) →
  let all := (map_to_list (direct_replies i db)).*2 in
  let page_items p :=
    match getReplies oldest_first i p limit db with
    | inr L => items L
    | inl _ => []
    end in
  concat (map (fun p => page_items (Pos.of_nat (S p)))
              (seq 0 (pages_needed (length all) limit)))
  = oldest_first all
  ∧ concat (map (fun p => page_items (Pos.of_nat (S p)))
                (seq 0 (pages_needed (length all) limit))) ≡ₚ all
  ∧ ∀ p, (pages_needed (length all) limit < Pos.to_nat p)%nat →
         page_items p = [].
Proof.
  intros Hsort [c0 Hi] all page_items.
  assert (∀ p, page_items p = paginate p limit (oldest_first all)) as Hpage.
  { intros p. unfold page_items.
    by rewrite (getReplies_found oldest_first i p limit db c0 Hi). }
  assert (length (oldest_first all) = length all) as Hlen
    by by rewrite (Hsort all).
  assert (concat (map (fun p => page_items (Pos.of_nat (S p)))
                      (seq 0 (pages_needed (length all) limit)))
          = oldest_first all) as Hall.
  { rewrite (map_ext _ (fun p => take (Pos.to_nat limit)
                                   (drop (p * Pos.to_nat limit)
                                         (oldest_first all)))).
    2:{ intros p. rewrite Hpage. unfold paginate.
        rewrite Nat2Pos.id by done.
        by replace (S p - 1)%nat with p by lia. }
    apply concat_pieces; [lia|]. rewrite Hlen. apply pages_needed_enough. }
  split; [exact Hall|]. split; [rewrite Hall; apply Hsort|].
  intros p Hp. rewrite Hpage. unfold paginate.
  rewrite drop_ge; [by rewrite take_nil|].
  rewrite Hlen. pose proof (pages_needed_enough (length all) limit). nia.
Qed.

Lemma getReplies_pages_cover_all_replies_witness :
  let all := (map_to_list (direct_replies 501 db3)).*2 in
  let page_items p :=
    match getReplies by_createdAt 501 p 1 db3 with
    | inr L => items L
    | inl _ => []
    end in
  concat (map (fun p => page_items (Pos.of_nat (S p)))
              (seq 0 (pages_needed (length all) 1)))
  = by_createdAt all
  ∧ concat (map (fun p => page_items (Pos.of_nat (S p)))
                (seq 0 (pages_needed (length all) 1))) ≡ₚ all
  ∧ ∀ p, (pages_needed (length all) 1 < Pos.to_nat p)%nat →
         page_items p = [].
Proof.
  apply (getReplies_pages_cover_all_replies by_createdAt 501 1 db3).
  - intros l. apply merge_sort_Permutation.
  - by eexists.
Defined.

End Listings.

Section Threads.

Import Sample.

Implicit Types (db : Db) (c d : Comment) (i j k : ObjectId)
  (page limit : positive).

Lemma getComments_found newest_first oldest_first b page limit db :
  b ∈ blogs db →
  getComments newest_first oldest_first b page limit db
  = inr (mkListing
           (length
              (map (fun c =>
                      (c, oldest_first
                            (map_to_list (direct_replies (_id c) db)).*2))
                   (paginate page limit
                      (newest_first (map_to_list (top_level_of b db)).*2))))
           (length (map_to_list (top_level_of b db)).*2)
           (pages_needed (length (map_to_list (top_level_of b db)).*2) limit)
           page
           (map (fun c =>
                   (c, oldest_first
                         (map_to_list (direct_replies (_id c) db)).*2))
                (paginate page limit
                   (newest_first (map_to_list (top_level_of b db)).*2)))).
Proof.
  intros Hb. unfold getComments, Blog_findById.
  by rewrite bool_decide_eq_true_2.
Qed.

Lemma getComments_item newest_first oldest_first b page limit db L c rs :
  rearranges newest_first → rearranges oldest_first →
  getComments newest_first oldest_first b page limit db = inr L →
  (c, rs) ∈ items L →
  blog c = b ∧ parentComment c = None
  ∧ (∃ k, comments db !! k = Some c)
  ∧ rs ≡ₚ (map_to_list (direct_replies (_id c) db)).*2.
Proof.
  intros Hnew Hold HL Hin.
  assert (b ∈ blogs db) as Hb.
  { revert HL. unfold getComments, Blog_findById.
    by case_bool_decide. }
  rewrite (getComments_found _ _ b page limit db Hb) in HL.
  injection HL as <-. cbn [items] in Hin.
  apply list_elem_of_In in Hin.
  apply in_map_iff in Hin as (c' & Heq & Hc).
  injection Heq as -> <-.
  apply list_elem_of_In in Hc. apply elem_of_paginate in Hc.
  rewrite (Hnew _) in Hc.
  apply elem_of_documents in Hc as [k Hk].
  apply map_lookup_filter_Some in Hk as [Hk [Hblog Hp]].
  split; [done|]. split; [done|]. split; [by exists k | apply Hold].
Qed.

(** X27.  [getComments] answers "not found" for a blog post that does not exist.
    For an existing one, every entry of a page is a stored top-level
    comment of that blog post, shown with exactly its direct replies (each
    once, in the database's order); a page holds at most [limit] entries
    and [totalCount] is the number of top-level comments of the post. *)
Theorem getComments_shows_threads newest_first oldest_first b page limit db :
  rearranges newest_first → rearranges oldest_first →
  (b ∉ blogs db →
   getComments newest_first oldest_first b page limit db
   = inl (mkResponse 404 false "Blog post not found" NoPayload))
  ∧ (b ∈ blogs db →
     ∃ L, getComments newest_first oldest_first b page limit db = inr L
          ∧ (∀ c rs, (c, rs) ∈ items L →
               blog c = b ∧ parentComment c = None
               ∧ (∃ k, comments db !! k = Some c)
               ∧ rs ≡ₚ (map_to_list (direct_replies (_id c) db)).*2)
          ∧ count L = length (items L)
          ∧ (count L ≤ Pos.to_nat limit)%nat
          ∧ totalCount L = size (top_level_of b db)).
Proof.
  intros Hnew Hold. split.
  - intros Hb. unfold getComments, Blog_findById.
    by rewrite bool_decide_eq_false_2.
  - intros Hb. eexists. split; [by apply getComments_found|].
    split; [|split; [|split]].
    + intros c rs Hin.
      eapply getComments_item; [exact Hnew|exact Hold| |exact Hin].
      by apply getComments_found.
    + done.
    + cbn [count]. rewrite length_map. apply length_paginate.
    + cbn [totalCount]. by rewrite length_fmap, length_map_to_list.
Qed.

Lemma getComments_shows_threads_witness :
  ∃ L, getComments by_createdAt by_createdAt article 1 20 db3 = inr L
       ∧ (∀ c rs, (c, rs) ∈ items L →
            blog c = article ∧ parentComment c = None
            ∧ (∃ k, comments db3 !! k = Some c)
            ∧ rs ≡ₚ (map_to_list (direct_replies (_id c) db3)).*2)
       ∧ count L = length (items L)
       ∧ (count L ≤ Pos.to_nat 20)%nat
       ∧ totalCount L = size (top_level_of article db3).
Proof.
  refine (proj2 (getComments_shows_threads by_createdAt by_createdAt article
                   1 20 db3 _ _) _).
  - intros l. apply merge_sort_Permutation.
  - intros l. apply merge_sort_Permutation.
  - vm_compute. reflexivity.
Defined.

(** X28.  A reply to a reply is stored but never shown.  On every reachable
    database, a comment whose parent is itself a reply appears on no page
    of [getComments], for no blog post: not as a top-level entry and not
    among the replies of any entry. *)
Theorem reply_to_reply_is_never_listed newest_first oldest_first db j d k ck :
  reachable db → rearranges newest_first → rearranges oldest_first →
  comments db !! j = Some d → parentComment d = Some k →
  comments db !! k = Some ck → parentComment ck ≠ None →
  ∀ b page limit L,
    getComments newest_first oldest_first b page limit db = inr L →
    ∀ c rs, (c, rs) ∈ items L → d ≠ c ∧ d ∉ rs.
Proof.
  intros Hreach Hnew Hold Hj Hpd Hk Hpk b page limit L HL c rs Hin.
  destruct (getComments_item _ _ b page limit db L c rs Hnew Hold HL Hin)
    as (_ & Hpc & [kc Hkc] & Hrs).
  split; [congruence|].
  intros Hd. rewrite Hrs in Hd.
  apply elem_of_documents in Hd as [j' Hj'].
  apply map_lookup_filter_Some in Hj' as [_ Hparent]. cbn in Hparent.
  destruct (reachable_db_ok db Hreach kc c Hkc) as [Hid _].
  assert (k = kc) as -> by congruence.
  congruence.
Qed.

Lemma reply_to_reply_is_never_listed_witness :
  let nested := mkComment 503 (code_units "nested") 1 article (Some 502%N)
                          [] [] false 1002 1002 in
  nested ≠ hello ∧ nested ∉ [hi].
Proof.
  apply (reply_to_reply_is_never_listed by_createdAt by_createdAt db3 503 _
           502 hi)
    with (b := article) (page := 1%positive) (limit := 20%positive)
         (L := mkListing 1 1 1 1 [(hello, [hi])]).
  - apply reachable_db3.
  - intros l. apply merge_sort_Permutation.
  - intros l. apply merge_sort_Permutation.
  - reflexivity.
  - reflexivity.
  - reflexivity.
  - discriminate.
  - vm_compute. reflexivity.
  - cbn. by left.
Defined.

End Threads.
